(** * Event Management API: a shallow embedding of [module1.py]

    The service keeps two SQL tables, [events] and [attendees], behind a
    SQLAlchemy session that is opened per request by [get_db].  Tables are
    finite maps from the integer primary key to the remaining columns; a
    request handler is a computation in a state-and-exception monad over
    the session, and [get_db] turns it into a transition of the database.

    Requests are served one at a time.  Python integers are [Z]; an
    integer handed to SQLite must fit its signed 64-bit INTEGER, and a
    [datetime] must stay within the years 1 to 9999, or [OverflowError] is
    raised.  The HTTP layer (routing, parsing and validation of parameters,
    serialisation of the answer) is outside the model: a handler is applied
    to arguments of the types its signature declares and its answer is the
    object it returns. *)

From stdpp Require Import gmap strings list fin_maps.
From Stdlib Require Import ZArith Ascii.

Local Open Scope Z_scope.

(** ** Data model *)

(** [class EventStatus(enum.Enum)] *)
Inductive EventStatus := scheduled | ongoing | completed | canceled.

#[global] Instance EventStatus_eq_dec : EqDecision EventStatus.
Proof. solve_decision. Defined.

(** [class Event(Base)]: the columns of table [events] other than the
    primary key [event_id], which is the key of the table map.  A
    [DateTime] is counted in microseconds from [datetime.min], the start of
    year 1. *)
Record Event := Build_Event {
  name : string;
  description : string;
  start_time : Z;
  end_time : Z;
  location : string;
  max_attendees : Z;
  status : EventStatus
}.

(** [class Attendee(Base)]: the columns of table [attendees] other than the
    primary key [attendee_id]; [event_id] is the foreign-key column. *)
Record Attendee := Build_Attendee {
  first_name : string;
  last_name : string;
  email : string;
  phone_number : string;
  event_id : Z;
  check_in_status : bool
}.

#[global] Instance Event_eq_dec : EqDecision Event.
Proof. solve_decision. Defined.
#[global] Instance Attendee_eq_dec : EqDecision Attendee.
Proof. solve_decision. Defined.

(** The contents of [events.db]. *)
Record Db := Build_Db {
  events : gmap Z Event;
  attendees : gmap Z Attendee
}.

Definition empty_db : Db := {| events := ∅; attendees := ∅ |}.

(** [Event(name=..., ...)]: [status] is left unset, so the column default
    [EventStatus.scheduled] is what the INSERT writes. *)
Definition Event_init (name description : string) (start_time end_time : Z)
    (location : string) (max_attendees : Z) : Event :=
  {| name := name; description := description; start_time := start_time;
     end_time := end_time; location := location;
     max_attendees := max_attendees; status := scheduled |}.

(** [Attendee(event_id=..., ...)]: [check_in_status] is left unset and takes
    the column default [False]. *)
Definition Attendee_init (event_id : Z)
    (first_name last_name email phone_number : string) : Attendee :=
  {| first_name := first_name; last_name := last_name; email := email;
     phone_number := phone_number; event_id := event_id;
     check_in_status := false |}.

Definition set_status (s : EventStatus) (e : Event) : Event :=
  {| name := name e; description := description e;
     start_time := start_time e; end_time := end_time e;
     location := location e; max_attendees := max_attendees e; status := s |}.

Definition set_check_in_status (b : bool) (a : Attendee) : Attendee :=
  {| first_name := first_name a; last_name := last_name a; email := email a;
     phone_number := phone_number a; event_id := event_id a;
     check_in_status := b |}.

(** ** Exceptions *)

Inductive exn :=
| HTTPException (status_code : Z) (detail : string)
| IntegrityError        (* sqlalchemy.exc.IntegrityError, raised by a flush *)
| InvalidRequestError   (* sqlalchemy: refresh of an object with no row *)
| ValueError            (* int() on a string that is not a numeral *)
| IndexError            (* row[0] on an empty row *)
| OverflowError.        (* an int too large for SQLite, a date out of range *)

(** The errors the service raises on purpose are the [HTTPException]s;
    every other exception escapes the handler unhandled. *)
Definition service_level (e : exn) : Prop :=
  ∃ code detail, e = HTTPException code detail.

Inductive outcome (A : Type) :=
| Ok (a : A)
| Raised (e : exn).
Arguments Ok {A} a.
Arguments Raised {A} e.

(** ** The storage layer *)

(** A row as the ORM hands it out: primary key and columns. *)
Definition row (A : Type) : Type := Z * A.

(** SQLite's INTEGER is a signed 64-bit integer. *)
Definition int64 (n : Z) : bool :=
  bool_decide (-9223372036854775808 ≤ n ≤ 9223372036854775807).

(** Whether [n] can be bound as a parameter that a statement compares with
    the primary key of table [t]: [sqlite3] raises [OverflowError] for a
    Python int outside the signed 64-bit range.  The keys a table holds are
    integers SQLite has stored, so a key of [t] can be bound. *)
Definition bindable {A} (t : gmap Z A) (n : Z) : bool :=
  int64 n || bool_decide (is_Some (t !! n)).

(** The integer parameters of the statements: ids of events and ids of
    attendees. *)
Inductive param :=
| Event_id (n : Z)
| Attendee_id (n : Z).

(** [query.filter(...)] narrows a predicate on rows and adds the
    parameters of its criteria; [.all()] and [.first()] run it against the
    table.  SQL promises no order for a query without ORDER BY; the table's
    own enumeration stands for it. *)
Record Query (A : Type) := Build_Query {
  holds : row A → bool;
  params : list param
}.
Arguments Build_Query {A} holds params.
Arguments holds {A} q r.
Arguments params {A} q.

Definition query {A} : Query A := {| holds := λ _, true; params := [] |}.

Definition query_filter {A} (q c : Query A) : Query A :=
  {| holds := λ r, holds q r && holds c r; params := params q ++ params c |}.

Definition query_all {A} (q : Query A) (t : gmap Z A) : list (row A) :=
  filter (λ r, holds q r) (map_to_list t).

Definition query_first {A} (q : Query A) (t : gmap Z A) : option (row A) :=
  head (query_all q t).

(** SQLite's choice of a rowid for an INSERT into a table with an INTEGER
    PRIMARY KEY: one more than the largest in use, 1 for an empty table. *)
Definition max_key {A} (t : gmap Z A) : option Z :=
  map_fold (λ k _ acc, Some (from_option (Z.max k) k acc)) None t.

Definition next_key {A} (t : gmap Z A) : Z :=
  match max_key t with
  | None => 1
  | Some j => j + 1
  end.

(** The unique index on [attendees.email]. *)
Definition email_taken (e : string) (t : gmap Z Attendee) : bool :=
  bool_decide (Exists (λ r : row Attendee, email r.2 = e) (map_to_list t)).

(** What a session holds back until it is flushed. *)
Inductive change :=
| Insert_event (e : Event)                              (* db.add(event) *)
| Insert_attendee (a : Attendee)                        (* db.add(attendee) *)
| Update_status (event_id : Z) (s : EventStatus)        (* event.status = s *)
| Update_check_in (attendee_id : Z) (b : bool).  (* attendee.check_in_status = b *)

(** One INSERT or UPDATE statement; an INSERT also yields the new key.  The
    integers of the new row are bound first; an UPDATE binds the key of the
    row the session has loaded. *)
Definition flush_change (c : change) (d : Db) : outcome (Db * option Z) :=
  match c with
  | Insert_event e =>
      if negb (int64 (max_attendees e)) then Raised OverflowError
      else
        let k := next_key (events d) in
        Ok ({| events := <[k := e]> (events d); attendees := attendees d |},
            Some k)
  | Insert_attendee a =>
      if negb (bindable (events d) (event_id a)) then Raised OverflowError
      else if email_taken (email a) (attendees d) then Raised IntegrityError
      else
        let k := next_key (attendees d) in
        Ok ({| events := events d; attendees := <[k := a]> (attendees d) |},
            Some k)
  | Update_status k s =>
      Ok ({| events := alter (set_status s) k (events d);
             attendees := attendees d |}, None)
  | Update_check_in k b =>
      Ok ({| events := events d;
             attendees := alter (set_check_in_status b) k (attendees d) |},
          None)
  end.

Fixpoint flush (cs : list change) (d : Db) : outcome (Db * list (option Z)) :=
  match cs with
  | [] => Ok (d, [])
  | c :: cs' =>
      match flush_change c d with
      | Raised e => Raised e
      | Ok (d', k) =>
          match flush cs' d' with
          | Raised e => Raised e
          | Ok (d'', ks) => Ok (d'', k :: ks)
          end
      end
  end.

(** [SessionLocal()], with [autocommit=False, autoflush=False]: queries read
    the database as last committed, changes wait in [pending] until
    [commit], and [flushed] remembers the key each flushed change got. *)
Record Session := Build_Session {
  database : Db;
  flushed : list (option Z);
  pending : list change
}.

Definition SessionLocal (d : Db) : Session :=
  {| database := d; flushed := []; pending := [] |}.

Definition M (A : Type) : Type := Session → outcome (A * Session).

#[global] Instance M_ret : MRet M := λ A a s, Ok (a, s).
#[global] Instance M_bind : MBind M := λ A B f m s,
  match m s with
  | Raised e => Raised e
  | Ok (a, s') => f a s'
  end.

Definition raise {A} (e : exn) : M A := λ _, Raised e.

(** A handle on an object given to [db.add], good for [db.refresh] later. *)
Definition db_add (c : change) : M nat := λ s,
  Ok ((length (flushed s) + length (pending s))%nat,
      {| database := database s; flushed := flushed s;
         pending := pending s ++ [c] |}).

(** An attribute assignment on a persistent object marks it dirty. *)
Definition db_set (c : change) : M () := λ s,
  Ok ((), {| database := database s; flushed := flushed s;
             pending := pending s ++ [c] |}).

Definition db_commit : M () := λ s,
  match flush (pending s) (database s) with
  | Raised e => Raised e
  | Ok (d, ks) =>
      Ok ((), {| database := d; flushed := flushed s ++ ks; pending := [] |})
  end.

Definition db_refresh {A} (table : Db → gmap Z A) (h : nat) : M (row A) := λ s,
  match flushed s !! h with
  | Some (Some k) =>
      match table (database s) !! k with
      | Some x => Ok ((k, x), s)
      | None => Raised InvalidRequestError
      end
  | _ => Raised InvalidRequestError
  end.

(** [def get_db()]: a fresh session per request, closed on every exit; what
    was not committed is gone when it closes. *)
Definition get_db {A} (handler : M A) (d : Db) : Db * outcome A :=
  match handler (SessionLocal d) with
  | Ok (a, s) => (database s, Ok a)
  | Raised e => (d, Raised e)
  end.

(** Binding the parameters of a statement against the database. *)
Definition fits (d : Db) (p : param) : bool :=
  match p with
  | Event_id n => bindable (events d) n
  | Attendee_id n => bindable (attendees d) n
  end.

Definition db_query_all {A} (table : Db → gmap Z A) (q : Query A)
    : M (list (row A)) := λ s,
  if forallb (fits (database s)) (params q)
  then Ok (query_all q (table (database s)), s)
  else Raised OverflowError.

Definition db_query_first {A} (table : Db → gmap Z A) (q : Query A)
    : M (option (row A)) := λ s,
  if forallb (fits (database s)) (params q)
  then Ok (query_first q (table (database s)), s)
  else Raised OverflowError.

(** The filter criteria the handlers use. *)
Definition Event_event_id_eq (k : Z) : Query Event :=
  {| holds := λ r, bool_decide (r.1 = k); params := [Event_id k] |}.
Definition Attendee_attendee_id_eq (k : Z) : Query Attendee :=
  {| holds := λ r, bool_decide (r.1 = k); params := [Attendee_id k] |}.
Definition Attendee_event_id_eq (k : Z) : Query Attendee :=
  {| holds := λ r, bool_decide (event_id r.2 = k); params := [Event_id k] |}.
Definition Event_status_eq (st : EventStatus) : Query Event :=
  {| holds := λ r, bool_decide (status r.2 = st); params := [] |}.
Definition Event_location_eq (loc : string) : Query Event :=
  {| holds := λ r, bool_decide (location r.2 = loc); params := [] |}.
Definition Event_start_time_ge (t : Z) : Query Event :=
  {| holds := λ r, bool_decide (t ≤ start_time r.2); params := [] |}.
Definition Event_end_time_le (t : Z) : Query Event :=
  {| holds := λ r, bool_decide (end_time r.2 ≤ t); params := [] |}.

(** [event.attendees]: the relationship, loaded through the foreign key. *)
Definition Event_attendees (event : row Event) : M (list (row Attendee)) :=
  db_query_all attendees (query_filter query (Attendee_event_id_eq event.1)).

(** [timedelta(days=n)] in microseconds. *)
Definition timedelta_days (n : Z) : Z := n * 86400000000.

(** [datetime.max], the last microsecond of year 9999: day 3652059 of the
    calendar ends there. *)
Definition datetime_max : Z := 3652059 * 86400000000 - 1.

(** [date + delta]: [OverflowError] when the sum is no [datetime]. *)
Definition datetime_add (date delta : Z) : M Z := λ s,
  if bool_decide (0 ≤ date + delta ≤ datetime_max)
  then Ok (date + delta, s)
  else Raised OverflowError.

(** ** The request handlers *)

(** [@app.post("/events/")] *)
Definition create_event (name description : string) (start_time end_time : Z)
    (location : string) (max_attendees : Z) : M (row Event) :=
  let event :=
    Event_init name description start_time end_time location max_attendees in
  h ← db_add (Insert_event event);
  db_commit;;
  db_refresh events h.

(** [@app.put("/events/{event_id}")] *)
Definition update_event (event_id : Z) (st : EventStatus) : M (row Event) :=
  event ← db_query_first events (query_filter query (Event_event_id_eq event_id));
  match event with
  | None => raise (HTTPException 404 "Event not found")
  | Some event =>
      db_set (Update_status event.1 st);;
      db_commit;;
      mret (event.1, set_status st event.2)
  end.

(** [@app.post("/attendees/")] *)
Definition register_attendee (event_id : Z)
    (first_name last_name email phone_number : string) : M (row Attendee) :=
  event ← db_query_first events (query_filter query (Event_event_id_eq event_id));
  match event with
  | None => raise (HTTPException 404 "Event not found")
  | Some event =>
      registered ← Event_attendees event;
      if bool_decide (Z.of_nat (length registered) >= max_attendees event.2)
      then raise (HTTPException 400 "Event is full")
      else
        let attendee :=
          Attendee_init event_id first_name last_name email phone_number in
        h ← db_add (Insert_attendee attendee);
        db_commit;;
        db_refresh attendees h
  end.

(** [@app.post("/attendees/check-in/{attendee_id}")] *)
Definition check_in_attendee (attendee_id : Z) : M (row Attendee) :=
  attendee ← db_query_first attendees
               (query_filter query (Attendee_attendee_id_eq attendee_id));
  match attendee with
  | None => raise (HTTPException 404 "Attendee not found")
  | Some attendee =>
      db_set (Update_check_in attendee.1 true);;
      db_commit;;
      mret (attendee.1, set_check_in_status true attendee.2)
  end.

(** [@app.get("/events/")].  The three [if]s test Python truthiness: an
    enum member and a datetime are always true, a string is true unless it
    is empty, and [None] is false. *)
Definition list_events (st : option EventStatus) (loc : option string)
    (date : option Z) : M (list (row Event)) :=
  let q := query in
  let q := match st with
           | Some s => query_filter q (Event_status_eq s)
           | None => q
           end in
  let q := match loc with
           | Some l =>
               if bool_decide (l = "") then q
               else query_filter q (Event_location_eq l)
           | None => q
           end in
  q ← match date with
      | Some t =>
          t' ← datetime_add t (timedelta_days 1);
          mret (query_filter (query_filter q (Event_start_time_ge t))
                  (Event_end_time_le t'))
      | None => mret q
      end;
  db_query_all events q.

(** [@app.get("/events/{event_id}/attendees")] *)
Definition list_attendees (event_id : Z) : M (list (row Attendee)) :=
  db_query_all attendees (query_filter query (Attendee_event_id_eq event_id)).

(** [for x in xs: body] *)
Fixpoint for_each {A} (xs : list A) (body : A → M ()) : M () :=
  match xs with
  | [] => mret ()
  | x :: xs' => body x;; for_each xs' body
  end.

(** [row[0]] *)
Definition row_0 (r : list string) : M string :=
  match r with
  | [] => raise IndexError
  | field :: _ => mret field
  end.

Section WithInt.

(** Python's builtin [int] on a [str]: [Some n] when the string is a
    numeral for [n], [None] when [int] raises [ValueError]. *)
Variable int_of_str : string → option Z.

Definition int (s : string) : M Z :=
  match int_of_str s with
  | Some n => mret n
  | None => raise ValueError
  end.

Definition bulk_check_in_row (r : list string) : M () :=
  field ← row_0 r;
  attendee_id ← int field;
  attendee ← db_query_first attendees
               (query_filter query (Attendee_attendee_id_eq attendee_id));
  match attendee with
  | Some attendee => db_set (Update_check_in attendee.1 true)
  | None => mret ()
  end.

(** [@app.post("/attendees/bulk-check-in/")], from the rows that
    [csv.reader] yields for the uploaded file. *)
Definition bulk_check_in (rows : list (list string))
    : M (list (string * string)) :=
  for_each rows bulk_check_in_row;;
  db_commit;;
  mret [("message", "Bulk check-in completed")].

(** ** The service as a transition system *)

Inductive request :=
| POST_events (name description : string) (start_time end_time : Z)
    (location : string) (max_attendees : Z)
| PUT_events (event_id : Z) (st : EventStatus)
| POST_attendees (event_id : Z)
    (first_name last_name email phone_number : string)
| POST_attendees_check_in (attendee_id : Z)
| GET_events (st : option EventStatus) (loc : option string)
    (date : option Z)
| GET_events_attendees (event_id : Z)
| POST_attendees_bulk_check_in (rows : list (list string)).

(** The database after one request, whatever the response was. *)
Definition serve (r : request) (d : Db) : Db :=
  match r with
  | POST_events n ds s e l m => (get_db (create_event n ds s e l m) d).1
  | PUT_events k st => (get_db (update_event k st) d).1
  | POST_attendees k f l e p => (get_db (register_attendee k f l e p) d).1
  | POST_attendees_check_in k => (get_db (check_in_attendee k) d).1
  | GET_events st loc date => (get_db (list_events st loc date) d).1
  | GET_events_attendees k => (get_db (list_attendees k) d).1
  | POST_attendees_bulk_check_in rows => (get_db (bulk_check_in rows) d).1
  end.

(** Requests are served one after another, starting from [d]. *)
Definition serve_all (rs : list request) (d : Db) : Db :=
  foldl (λ d r, serve r d) d rs.

End WithInt.

(** An [int] for plain ASCII decimal numerals with an optional sign, on
    which it agrees with Python's; used to run the handlers on examples. *)
Definition digit_of_ascii (c : Ascii.ascii) : option Z :=
  let n := Z.of_N (Ascii.N_of_ascii c) in
  if bool_decide (48 ≤ n ≤ 57) then Some (n - 48) else None.

Fixpoint digits_of_string (acc : Z) (s : string) : option Z :=
  match s with
  | EmptyString => Some acc
  | String c s' =>
      match digit_of_ascii c with
      | Some d => digits_of_string (10 * acc + d) s'
      | None => None
      end
  end.

Definition unsigned_of_string (s : string) : option Z :=
  match s with
  | EmptyString => None
  | _ => digits_of_string 0 s
  end.

Definition ascii_int (s : string) : option Z :=
  match s with
  | String "-"%char s' => Z.opp <$> unsigned_of_string s'
  | String "+"%char s' => unsigned_of_string s'
  | _ => unsigned_of_string s
  end.

(** ** Notions the properties are stated with *)

(** [len(event.attendees)] for the event with key [k]. *)
Definition attendee_count (k : Z) (d : Db) : nat :=
  length (query_all (query_filter query (Attendee_event_id_eq k)) (attendees d)).

(** The attendee ids a batch of rows names, or the exception raised at the
    first row that names none or whose id cannot be looked up in [t]. *)
Fixpoint row_ids (int_of_str : string → option Z) (t : gmap Z Attendee)
    (rows : list (list string)) : outcome (list Z) :=
  match rows with
  | [] => Ok []
  | [] :: _ => Raised IndexError
  | (field :: _) :: rows' =>
      match int_of_str field with
      | None => Raised ValueError
      | Some n =>
          if bindable t n then
            match row_ids int_of_str t rows' with
            | Raised e => Raised e
            | Ok ns => Ok (n :: ns)
            end
          else Raised OverflowError
      end
  end.

Definition check_in_all (ids : list Z) (t : gmap Z Attendee) : gmap Z Attendee :=
  foldl (λ t k, alter (set_check_in_status true) k t) t ids.

Definition known (t : gmap Z Attendee) (k : Z) : Prop := is_Some (t !! k).

(** Registrations for event [k] served one after another: the database
    they leave and how many of them were accepted. *)
Fixpoint register_seq (k : Z) (regs : list (string * string * string * string))
    (d : Db) : Db * nat :=
  match regs with
  | [] => (d, 0%nat)
  | (f, l, e, p) :: regs' =>
      let '(d', res) := get_db (register_attendee k f l e p) d in
      let '(d'', n) := register_seq k regs' d' in
      (d'', ((match res with Ok _ => 1 | Raised _ => 0 end) + n)%nat)
  end.

(** Every attendee row points at an event row. *)
Definition fk_ok (d : Db) : Prop :=
  ∀ j a, attendees d !! j = Some a → is_Some (events d !! event_id a).

(** No event holds more attendees than its capacity, counted from zero. *)
Definition capacity_ok (d : Db) : Prop :=
  ∀ k ev, events d !! k = Some ev →
    Z.of_nat (attendee_count k d) ≤ Z.max 0 (max_attendees ev).

Definition consistent (d : Db) : Prop := fk_ok d ∧ capacity_ok d.

(** What a well-formed row of a bulk upload is: a first field that [int]
    accepts. *)
Definition names_id (int_of_str : string → option Z) (r : list string) (n : Z)
    : Prop :=
  ∃ field rest, r = field :: rest ∧ int_of_str field = Some n.


(** The filters of [list_events], read off the query string. *)
Definition matches (st : option EventStatus) (loc : option string)
    (date : option Z) (ev : Event) : Prop :=
  (∀ s, st = Some s → status ev = s)
  ∧ (∀ l, loc = Some l → l ≠ "" → location ev = l)
  ∧ (∀ t, date = Some t →
       t ≤ start_time ev ∧ end_time ev ≤ t + 86400000000).

(** [date + timedelta(days=1)] is a [datetime]: the day after the given
    date, if a date is given, does not pass the end of year 9999. *)
Definition next_day_exists (date : option Z) : Prop :=
  ∀ t, date = Some t → 0 ≤ t + 86400000000 ≤ datetime_max.

(** ** Example databases *)

(** One event with two seats, one of them taken. *)
Definition db_two_seats : Db :=
  (get_db (create_event "Launch" "" 10 20 "Hall" 2) empty_db).1.
Definition db_one_taken : Db :=
  (get_db (register_attendee 1 "Ann" "Lee" "ann@x.org" "555") db_two_seats).1.

(** One event with a single seat, free and then taken. *)
Definition db_one_seat : Db :=
  (get_db (create_event "Talk" "" 10 20 "Room" 1) empty_db).1.
Definition db_full : Db :=
  (get_db (register_attendee 1 "Ann" "Lee" "ann@x.org" "555") db_one_seat).1.

(** ** Further notions *)

(** The unique index on [attendees.email], as a property of the table. *)
Definition unique_emails (d : Db) : Prop :=
  ∀ j1 j2 a1 a2,
    attendees d !! j1 = Some a1 → attendees d !! j2 = Some a2 →
    email a1 = email a2 → j1 = j2.


(** ** Facts about the storage layer *)

Arguments int64 : simpl never.
Arguments bindable : simpl never.

Ltac run_handler :=
  unfold get_db, SessionLocal, mbind, mret, M_bind, M_ret, raise,
    db_add, db_set, db_commit, db_refresh, db_query_first, db_query_all,
    Event_attendees; cbn.

Section Storage.
Context {A : Type}.
Implicit Types (t : gmap Z A) (q : Query A) (k : Z) (x : A).

Lemma elem_of_query_all q t k x :
  (k, x) ∈ query_all q t ↔ t !! k = Some x ∧ holds q (k, x) = true.
Proof.
  unfold query_all. rewrite list_elem_of_filter, elem_of_map_to_list.
  rewrite Is_true_true. tauto.
Qed.

Lemma NoDup_query_all q t : NoDup (query_all q t).
Proof. apply NoDup_filter, NoDup_map_to_list. Qed.

(** A query on the primary key finds the row the table holds there. *)
Lemma query_first_key q t k :
  (∀ r, holds q r = bool_decide (r.1 = k)) →
  query_first q t = (λ x, (k, x)) <$> t !! k.
Proof.
  intros Hq. unfold query_first.
  set (l := query_all _ t).
  assert (Hin : ∀ r, r ∈ l ↔ ∃ x, r = (k, x) ∧ t !! k = Some x).
  { intros [j y]. subst l. rewrite elem_of_query_all, Hq.
    cbn. rewrite bool_decide_eq_true.
    split.
    - intros [? ->]. eauto.
    - intros (x & [= -> ->] & ?). done. }
  assert (Hnd : NoDup l) by apply NoDup_query_all.
  destruct (t !! k) as [x|] eqn:Hk; cbn.
  - destruct l as [|r l'].
    + exfalso. eapply (not_elem_of_nil (k, x)), Hin. eauto.
    + assert (r = (k, x)) as ->.
      { destruct (proj1 (Hin r)) as (y & -> & Hy); [left|]. congruence. }
      done.
  - destruct l as [|r l']; [done|].
    destruct (proj1 (Hin r)) as (y & _ & Hy); [left|]. done.
Qed.

Lemma max_key_bounds t k x :
  t !! k = Some x → ∃ j, max_key t = Some j ∧ k ≤ j.
Proof.
  unfold max_key. revert k x.
  apply (map_fold_weak_ind
           (λ r m, ∀ k x, m !! k = Some x → ∃ j, r = Some j ∧ k ≤ j)).
  - intros k x. by rewrite lookup_empty.
  - intros i y m r Hi IH k x.
    rewrite lookup_insert. case_decide as Hik.
    + intros _. subst i. destruct r as [j|]; cbn; eexists; split; eauto; lia.
    + intros Hk. destruct (IH _ _ Hk) as (j & -> & Hj). cbn.
      eexists; split; eauto. lia.
Qed.

(** The key an INSERT picks is not in use. *)
Lemma next_key_fresh t : t !! next_key t = None.
Proof.
  destruct (t !! next_key t) as [x|] eqn:Hk; [|done].
  destruct (max_key_bounds _ _ _ Hk) as (j & Hj & Hle).
  unfold next_key in Hle. rewrite Hj in Hle. lia.
Qed.

Lemma next_key_empty : next_key (∅ : gmap Z A) = 1.
Proof. unfold next_key, max_key. by rewrite map_fold_empty. Qed.

Lemma length_query_all_insert q t k x :
  t !! k = None →
  length (query_all q (<[k:=x]> t))
  = ((if holds q (k, x) then 1 else 0) + length (query_all q t))%nat.
Proof.
  intros Hk. unfold query_all.
  rewrite (map_to_list_insert t k x Hk), filter_cons.
  destruct (holds q (k, x)); cbn; by case_decide.
Qed.

Lemma length_query_all_alter q (f : A → A) t k :
  (∀ x, holds q (k, f x) = holds q (k, x)) →
  length (query_all q (alter f k t)) = length (query_all q t).
Proof.
  intros Hq. destruct (t !! k) as [x|] eqn:Hk.
  - rewrite <-(insert_delete_id t k x Hk) at 2.
    rewrite <-(insert_delete_id t k x Hk) at 1.
    rewrite alter_insert_eq.
    rewrite !length_query_all_insert by apply lookup_delete_eq.
    by rewrite Hq.
  - by rewrite alter_id' by (by rewrite Hk).
Qed.

End Storage.

Lemma email_taken_true e (t : gmap Z Attendee) :
  email_taken e t = true ↔ ∃ k a, t !! k = Some a ∧ email a = e.
Proof.
  unfold email_taken. rewrite bool_decide_eq_true, Exists_exists. split.
  - intros ([k a] & Hin & He). apply elem_of_map_to_list in Hin. eauto.
  - intros (k & a & Hk & He). exists (k, a).
    split; [by apply elem_of_map_to_list | done].
Qed.

Lemma email_taken_false e (t : gmap Z Attendee) :
  email_taken e t = false ↔ ∀ k a, t !! k = Some a → email a ≠ e.
Proof.
  rewrite <-not_true_iff_false, email_taken_true. split.
  - intros Hn k a Hk He. apply Hn. eauto.
  - intros Hall (k & a & Hk & He). by eapply Hall.
Qed.

(** ** What each request does to the database *)

Lemma bindable_Some {A} (t : gmap Z A) k x :
  t !! k = Some x → bindable t k = true.
Proof.
  intros Hk. unfold bindable. rewrite Hk.
  rewrite (bool_decide_eq_true_2 (is_Some (Some x))) by eauto.
  apply orb_true_r.
Qed.

Lemma bindable_None {A} (t : gmap Z A) k :
  t !! k = None → bindable t k = int64 k.
Proof.
  intros Hk. unfold bindable. rewrite Hk.
  rewrite (bool_decide_eq_false_2 (is_Some None)) by (by intros [? ?]).
  apply orb_false_r.
Qed.

Lemma bindable_int64 {A} (t : gmap Z A) k :
  int64 k = true → bindable t k = true.
Proof. intros Hk. unfold bindable. by rewrite Hk. Qed.

Lemma get_db_create_event n ds s e l m d :
  get_db (create_event n ds s e l m) d
  = if int64 m
    then ({| events := <[next_key (events d) := Event_init n ds s e l m]>
                         (events d);
             attendees := attendees d |},
          Ok (next_key (events d), Event_init n ds s e l m))
    else (d, Raised OverflowError).
Proof.
  unfold create_event. run_handler. destruct (int64 m); cbn; [|done].
  by rewrite lookup_insert_eq.
Qed.

Lemma get_db_update_event k st d :
  get_db (update_event k st) d
  = match events d !! k with
    | None =>
        if int64 k then (d, Raised (HTTPException 404 "Event not found"))
        else (d, Raised OverflowError)
    | Some e =>
        ({| events := alter (set_status st) k (events d);
            attendees := attendees d |},
         Ok (k, set_status st e))
    end.
Proof.
  unfold update_event. run_handler.
  rewrite (query_first_key _ _ k) by done.
  destruct (events d !! k) as [e|] eqn:Hk.
  - by rewrite (bindable_Some _ _ _ Hk).
  - rewrite (bindable_None _ _ Hk). by destruct (int64 k).
Qed.

Lemma get_db_register_attendee k f l e p d :
  get_db (register_attendee k f l e p) d
  = match events d !! k with
    | None =>
        if int64 k then (d, Raised (HTTPException 404 "Event not found"))
        else (d, Raised OverflowError)
    | Some ev =>
        if bool_decide (Z.of_nat (attendee_count k d) >= max_attendees ev)
        then (d, Raised (HTTPException 400 "Event is full"))
        else if email_taken e (attendees d) then (d, Raised IntegrityError)
        else
          ({| events := events d;
              attendees :=
                <[next_key (attendees d) := Attendee_init k f l e p]>
                  (attendees d) |},
           Ok (next_key (attendees d), Attendee_init k f l e p))
    end.
Proof.
  unfold register_attendee, attendee_count. run_handler.
  rewrite (query_first_key _ _ k) by done.
  destruct (events d !! k) as [ev|] eqn:Hk.
  - rewrite (bindable_Some _ _ _ Hk). cbn. unfold db_query_all. cbn.
    rewrite (bindable_Some _ _ _ Hk).
    cbn. case_bool_decide; [done|]. run_handler.
    rewrite (bindable_Some _ _ _ Hk). cbn.
    destruct (email_taken e (attendees d)); cbn; [done|].
    by rewrite lookup_insert_eq.
  - rewrite (bindable_None _ _ Hk). by destruct (int64 k).
Qed.

Lemma get_db_check_in_attendee k d :
  get_db (check_in_attendee k) d
  = match attendees d !! k with
    | None =>
        if int64 k then (d, Raised (HTTPException 404 "Attendee not found"))
        else (d, Raised OverflowError)
    | Some a =>
        ({| events := events d;
            attendees := alter (set_check_in_status true) k (attendees d) |},
         Ok (k, set_check_in_status true a))
    end.
Proof.
  unfold check_in_attendee. run_handler.
  rewrite (query_first_key _ _ k) by done.
  destruct (attendees d !! k) as [a|] eqn:Hk.
  - by rewrite (bindable_Some _ _ _ Hk).
  - rewrite (bindable_None _ _ Hk). by destruct (int64 k).
Qed.

Lemma get_db_list_events st loc date d :
  (get_db (list_events st loc date) d).1 = d.
Proof.
  unfold list_events, datetime_add.
  destruct st as [s|], loc as [l|], date as [t|]; run_handler;
    repeat case_bool_decide; done.
Qed.

Lemma get_db_list_attendees k d :
  get_db (list_attendees k) d
  = if bindable (events d) k
    then (d, Ok (query_all (query_filter query (Attendee_event_id_eq k))
                   (attendees d)))
    else (d, Raised OverflowError).
Proof.
  unfold list_attendees. run_handler. by destruct (bindable (events d) k).
Qed.

Lemma for_each_cons {A} (x : A) xs body s :
  for_each (x :: xs) body s
  = match body x s with
    | Raised e => Raised e
    | Ok (_, s') => for_each xs body s'
    end.
Proof. done. Qed.

Lemma bulk_check_in_row_eq int_of_str r s :
  bulk_check_in_row int_of_str r s
  = match r with
    | [] => Raised IndexError
    | field :: _ =>
        match int_of_str field with
        | None => Raised ValueError
        | Some n =>
            if bindable (attendees (database s)) n then
              Ok ((), {| database := database s; flushed := flushed s;
                         pending := pending s
                           ++ match attendees (database s) !! n with
                              | Some _ => [Update_check_in n true]
                              | None => []
                              end |})
            else Raised OverflowError
        end
    end.
Proof.
  unfold bulk_check_in_row, row_0, int.
  destruct r as [|field r]; [done|]. run_handler.
  destruct (int_of_str field) as [n|]; [|done]. cbn.
  destruct (bindable (attendees (database s)) n); cbn; [|done].
  rewrite (query_first_key _ _ n) by done.
  destruct (attendees (database s) !! n) as [a|]; cbn; [done|].
  rewrite app_nil_r. by destruct s.
Qed.

Lemma for_each_bulk_check_in_row int_of_str rows s :
  for_each rows (bulk_check_in_row int_of_str) s
  = match row_ids int_of_str (attendees (database s)) rows with
    | Raised e => Raised e
    | Ok ids =>
        Ok ((), {| database := database s; flushed := flushed s;
                   pending := pending s
                     ++ ((λ k, Update_check_in k true)
                           <$> filter (known (attendees (database s))) ids) |})
    end.
Proof.
  revert s. induction rows as [|r rows IH]; intros s.
  - cbn. rewrite app_nil_r. by destruct s.
  - rewrite for_each_cons, bulk_check_in_row_eq. cbn [row_ids].
    destruct r as [|field r]; [done|].
    destruct (int_of_str field) as [n|]; [|done].
    destruct (bindable (attendees (database s)) n); [|done].
    rewrite IH. cbn [database flushed pending].
    destruct (row_ids int_of_str (attendees (database s)) rows)
      as [ids|e]; [|done].
    do 3 f_equal. rewrite <-app_assoc. f_equal.
    destruct (attendees (database s) !! n) as [a|] eqn:Hn.
    + rewrite filter_cons_True by (by eexists). done.
    + rewrite filter_cons_False; [done|]. intros [? ?]. congruence.
Qed.

Lemma flush_check_ins ids d :
  flush ((λ k, Update_check_in k true) <$> ids) d
  = Ok ({| events := events d; attendees := check_in_all ids (attendees d) |},
        (λ _, None) <$> ids).
Proof.
  revert d. induction ids as [|k ids IH]; intros d; cbn.
  - by destruct d.
  - by rewrite IH.
Qed.

Lemma lookup_check_in_all ids t k :
  check_in_all ids t !! k
  = if decide (k ∈ ids) then set_check_in_status true <$> t !! k else t !! k.
Proof.
  revert t. induction ids as [|i ids IH]; intros t; cbn.
  - rewrite decide_False; [done|]. apply not_elem_of_nil.
  - unfold check_in_all in IH. rewrite IH, lookup_alter.
    destruct (decide (k ∈ i :: ids)) as [Hc|Hc];
      rewrite elem_of_cons in Hc;
      destruct (decide (k ∈ ids)) as [Hin|Hin];
      destruct (decide (i = k)) as [->|Hik];
      try done; try (exfalso; intuition congruence).
    by destruct (t !! k).
Qed.

Lemma check_in_all_known ids t :
  check_in_all (filter (known t) ids) t = check_in_all ids t.
Proof.
  apply map_eq. intros k. rewrite !lookup_check_in_all.
  destruct (decide (k ∈ ids)) as [Hin|Hin].
  - destruct (t !! k) as [a|] eqn:Hk.
    + rewrite decide_True; [done|]. apply list_elem_of_filter.
      split; [by eexists | done].
    + by case_decide.
  - rewrite decide_False; [done|]. rewrite list_elem_of_filter. tauto.
Qed.

Lemma get_db_bulk_check_in int_of_str rows d :
  get_db (bulk_check_in int_of_str rows) d
  = match row_ids int_of_str (attendees d) rows with
    | Raised e => (d, Raised e)
    | Ok ids =>
        ({| events := events d;
            attendees := check_in_all ids (attendees d) |},
         Ok [("message", "Bulk check-in completed")])
    end.
Proof.
  unfold bulk_check_in. run_handler.
  rewrite for_each_bulk_check_in_row. cbn.
  destruct (row_ids int_of_str (attendees d) rows) as [ids|e]; [|done]. cbn.
  rewrite flush_check_ins. cbn. by rewrite check_in_all_known.
Qed.

(** ** A session of the service, run

    An event with one seat; Ann registers, Bob is turned away, Ann checks
    in, and the attendee list of the event is Ann, checked in. *)
Example scenario :
  let d1 := get_db (create_event "Talk" "" 10 20 "Room" 1) empty_db in
  let d2 := get_db (register_attendee 1 "Ann" "Lee" "ann@x.org" "555") d1.1 in
  let d3 := get_db (register_attendee 1 "Bob" "Ray" "bob@x.org" "556") d2.1 in
  let d4 := get_db (check_in_attendee 1) d3.1 in
  let d5 := get_db (list_attendees 1) d4.1 in
  d2.2 = Ok (1, Attendee_init 1 "Ann" "Lee" "ann@x.org" "555")
  ∧ d3.2 = Raised (HTTPException 400 "Event is full")
  ∧ d5.2 = Ok [(1, set_check_in_status true
                     (Attendee_init 1 "Ann" "Lee" "ann@x.org" "555"))].
Proof. vm_compute. done. Qed.

(** ** Event service *)

(** C8, as stated, fails: [create_event] does not succeed for every
    input; a [max_attendees] of 2^63 is refused when the row is inserted and
    nothing is stored. *)
Lemma create_event_overflow_counterexample :
  get_db (create_event "Launch" "" 10 20 "Hall" 9223372036854775808) empty_db
  = (empty_db, Raised OverflowError).
Proof. vm_compute. reflexivity. Qed.

(** C8, amended: for all argument values whose [max_attendees] fits a
    signed 64-bit integer, [end_time <= start_time] and
    [max_attendees <= 0] included, [create_event] validates nothing: it
    stores one new event under an unused key, with the columns as given and
    status [scheduled], returns it, and leaves every other row alone.  For a
    [max_attendees] outside that range it fails with [OverflowError] and
    stores nothing. *)
Theorem create_event_scheduled n ds s e l m d :
  (int64 m = true →
   ∃ k ev d',
     get_db (create_event n ds s e l m) d = (d', Ok (k, ev))
     ∧ status ev = scheduled
     ∧ ev = Build_Event n ds s e l m scheduled
     ∧ events d !! k = None
     ∧ events d' = <[k := ev]> (events d)
     ∧ attendees d' = attendees d)
  ∧ (int64 m = false →
     get_db (create_event n ds s e l m) d = (d, Raised OverflowError)).
Proof.
  rewrite get_db_create_event. split; intros ->; [|done].
  eexists _, _, _. split; [done|].
  repeat split. apply next_key_fresh.
Qed.

Lemma create_event_scheduled_witness :
  (∃ k ev d',
     get_db (create_event "Party" "" 20 10 "Hall" (-3)) db_one_taken
     = (d', Ok (k, ev))
     ∧ status ev = scheduled
     ∧ ev = Build_Event "Party" "" 20 10 "Hall" (-3) scheduled
     ∧ events db_one_taken !! k = None
     ∧ events d' = <[k := ev]> (events db_one_taken)
     ∧ attendees d' = attendees db_one_taken)
  ∧ get_db (create_event "Party" "" 20 10 "Hall" (-9223372036854775809))
      db_one_taken
    = (db_one_taken, Raised OverflowError).
Proof.
  split.
  - apply (proj1 (create_event_scheduled "Party" "" 20 10 "Hall" (-3)
                    db_one_taken)).
    vm_compute. reflexivity.
  - apply (proj2 (create_event_scheduled "Party" "" 20 10 "Hall"
                    (-9223372036854775809) db_one_taken)).
    vm_compute. reflexivity.
Defined.

(** C5, as stated, fails: for a key outside the signed 64-bit range no
    event exists, yet [update_event] does not answer 404: the lookup itself
    fails with [OverflowError]. *)
Lemma update_event_overflow_counterexample :
  events db_two_seats !! 9223372036854775808 = None
  ∧ get_db (update_event 9223372036854775808 ongoing) db_two_seats
    = (db_two_seats, Raised OverflowError).
Proof. split; vm_compute; reflexivity. Qed.

(** C5, amended: [update_event] answers 404 exactly when no event has the
    given key and the key fits a signed 64-bit integer, and fails with
    [OverflowError] exactly when no event has the key and the key does not
    fit; otherwise it succeeds and stores the requested status, whatever
    status the event had before, touching nothing else. *)
Theorem update_event_unconditional d k st :
  ((get_db (update_event k st) d).2
     = Raised (HTTPException 404 "Event not found")
   ↔ events d !! k = None ∧ int64 k = true)
  ∧ ((get_db (update_event k st) d).2 = Raised OverflowError
     ↔ events d !! k = None ∧ int64 k = false)
  ∧ (∀ ev, events d !! k = Some ev →
       ∃ d', get_db (update_event k st) d = (d', Ok (k, set_status st ev))
             ∧ events d' !! k = Some (set_status st ev)
             ∧ status (set_status st ev) = st
             ∧ (∀ j, j ≠ k → events d' !! j = events d !! j)
             ∧ attendees d' = attendees d)
  ∧ (events d !! k = None → (get_db (update_event k st) d).1 = d).
Proof.
  rewrite get_db_update_event. split_and!.
  - destruct (events d !! k); [|destruct (int64 k)]; cbn;
      split; try done; by intros [? ?].
  - destruct (events d !! k); [|destruct (int64 k)]; cbn;
      split; try done; by intros [? ?].
  - intros ev Hk. rewrite Hk. eexists. split; [done|]. cbn.
    rewrite lookup_alter_eq, Hk. split_and!; try done.
    intros j Hj. by rewrite lookup_alter_ne.
  - intros ->. by destruct (int64 k).
Qed.

Lemma update_event_unconditional_witness :
  events db_two_seats !! 1 = Some (Event_init "Launch" "" 10 20 "Hall" 2)
  ∧ ∃ d', get_db (update_event 1 canceled) db_two_seats
          = (d', Ok (1, set_status canceled
                          (Event_init "Launch" "" 10 20 "Hall" 2)))
          ∧ events d' !! 1
            = Some (set_status canceled (Event_init "Launch" "" 10 20 "Hall" 2))
          ∧ status (set_status canceled (Event_init "Launch" "" 10 20 "Hall" 2))
            = canceled
          ∧ (∀ j, j ≠ 1 → events d' !! j = events db_two_seats !! j)
          ∧ attendees d' = attendees db_two_seats.
Proof.
  split; [vm_compute; reflexivity|].
  apply (proj1 (proj2 (proj2
           (update_event_unconditional db_two_seats 1 canceled)))).
  vm_compute. reflexivity.
Defined.

(** ** Attendee service *)

(** C3: checking in an existing attendee succeeds and leaves
    [check_in_status] true; doing it again succeeds with the same answer
    and changes nothing in the database. *)
Theorem check_in_attendee_idempotent d k a :
  attendees d !! k = Some a →
  ∃ d1 a1,
    get_db (check_in_attendee k) d = (d1, Ok (k, a1))
    ∧ attendees d1 !! k = Some a1
    ∧ check_in_status a1 = true
    ∧ get_db (check_in_attendee k) d1 = (d1, Ok (k, a1)).
Proof.
  intros Hk. eexists _, _.
  split; [by rewrite get_db_check_in_attendee, Hk|].
  cbn. rewrite lookup_alter_eq, Hk. repeat split.
  rewrite get_db_check_in_attendee. cbn. rewrite lookup_alter_eq, Hk. cbn.
  do 2 f_equal. apply map_eq. intros j.
  rewrite !lookup_alter. case_decide as Hj; [|done].
  rewrite decide_True, Hk by done. reflexivity.
Qed.

Lemma check_in_attendee_idempotent_witness :
  ∃ d1 a1,
    get_db (check_in_attendee 1) db_one_taken = (d1, Ok (1, a1))
    ∧ attendees d1 !! 1 = Some a1
    ∧ check_in_status a1 = true
    ∧ get_db (check_in_attendee 1) d1 = (d1, Ok (1, a1)).
Proof.
  apply (check_in_attendee_idempotent db_one_taken 1
           (Attendee_init 1 "Ann" "Lee" "ann@x.org" "555")).
  vm_compute. reflexivity.
Defined.

Lemma attendee_count_insert k j a d :
  attendees d !! j = None →
  attendee_count k {| events := events d; attendees := <[j := a]> (attendees d) |}
  = ((if bool_decide (event_id a = k) then 1 else 0) + attendee_count k d)%nat.
Proof.
  intros Hj. unfold attendee_count. cbn.
  by rewrite length_query_all_insert.
Qed.

Lemma attendee_count_check_in k j b d ev :
  attendee_count k {| events := ev;
                      attendees := alter (set_check_in_status b) j (attendees d) |}
  = attendee_count k d.
Proof. unfold attendee_count. cbn. by apply length_query_all_alter. Qed.

(** A registration leaves the events alone, and adds one to the count of
    its event exactly when it is accepted. *)
Lemma register_attendee_events k f l e p d :
  events (get_db (register_attendee k f l e p) d).1 = events d.
Proof.
  rewrite get_db_register_attendee.
  destruct (events d !! k); [|by destruct (int64 k)].
  case_bool_decide; [done|]. by destruct (email_taken e (attendees d)).
Qed.

Lemma register_attendee_count k f l e p d :
  attendee_count k (get_db (register_attendee k f l e p) d).1
  = ((match (get_db (register_attendee k f l e p) d).2 with
      | Ok _ => 1 | Raised _ => 0 end) + attendee_count k d)%nat.
Proof.
  rewrite get_db_register_attendee.
  destruct (events d !! k); [|by destruct (int64 k)].
  case_bool_decide; [done|].
  destruct (email_taken e (attendees d)); [done|]. cbn.
  rewrite attendee_count_insert by apply next_key_fresh. cbn.
  by rewrite bool_decide_eq_true_2.
Qed.

Lemma register_seq_events k regs d :
  events (register_seq k regs d).1 = events d.
Proof.
  revert d. induction regs as [|[[[f l] e] p] regs IH]; intros d; [done|].
  cbn. pose proof (register_attendee_events k f l e p d) as He.
  destruct (get_db (register_attendee k f l e p) d) as [d' res].
  specialize (IH d'). destruct (register_seq k regs d') as [d'' n].
  cbn in *. congruence.
Qed.

Lemma register_seq_count k regs d :
  attendee_count k (register_seq k regs d).1
  = ((register_seq k regs d).2 + attendee_count k d)%nat.
Proof.
  revert d. induction regs as [|[[[f l] e] p] regs IH]; intros d; [done|].
  cbn. pose proof (register_attendee_count k f l e p d) as Hc.
  destruct (get_db (register_attendee k f l e p) d) as [d' res].
  specialize (IH d'). destruct (register_seq k regs d') as [d'' n].
  cbn in *. rewrite IH, Hc. lia.
Qed.

Lemma not_service_level_IntegrityError : ¬ service_level IntegrityError.
Proof. by intros (code & detail & ?). Qed.

(** C1, as stated, fails: the event below has two seats and one attendee,
    yet a registration that repeats the attendee's email is refused. *)
Lemma register_attendee_below_capacity_counterexample :
  events db_one_taken !! 1 = Some (Event_init "Launch" "" 10 20 "Hall" 2)
  ∧ Z.of_nat (attendee_count 1 db_one_taken) < 2
  ∧ get_db (register_attendee 1 "Bob" "Ray" "ann@x.org" "556") db_one_taken
    = (db_one_taken, Raised IntegrityError).
Proof. split_and!; vm_compute; reflexivity. Qed.

(** C1, amended: for an event with [max_attendees = N], a registration is
    accepted while the event has fewer than [N] attendees and the email is
    not yet registered (storing a new attendee with
    [check_in_status = false]), and is refused with 400 whenever the event
    has [N] attendees or more; so once [N] registrations have been accepted
    for an event that had none, the next one is refused with 400. *)
Theorem register_attendee_capacity d k ev f l e p :
  events d !! k = Some ev →
  (Z.of_nat (attendee_count k d) < max_attendees ev →
   (∀ j a, attendees d !! j = Some a → email a ≠ e) →
   ∃ j d',
     get_db (register_attendee k f l e p) d
     = (d', Ok (j, Attendee_init k f l e p))
     ∧ check_in_status (Attendee_init k f l e p) = false
     ∧ attendees d !! j = None
     ∧ attendees d' = <[j := Attendee_init k f l e p]> (attendees d)
     ∧ events d' = events d
     ∧ attendee_count k d' = S (attendee_count k d))
  ∧ (Z.of_nat (attendee_count k d) >= max_attendees ev →
     get_db (register_attendee k f l e p) d
     = (d, Raised (HTTPException 400 "Event is full")))
  ∧ (∀ regs,
       attendee_count k d = 0%nat →
       Z.of_nat (register_seq k regs d).2 = max_attendees ev →
       get_db (register_attendee k f l e p) (register_seq k regs d).1
       = ((register_seq k regs d).1,
          Raised (HTTPException 400 "Event is full"))).
Proof.
  intros Hk. split_and!.
  - intros Hlt Hfresh. apply email_taken_false in Hfresh.
    eexists _, _. rewrite get_db_register_attendee, Hk, Hfresh.
    rewrite bool_decide_eq_false_2 by lia.
    split_and!; try done; cbn.
    + apply next_key_fresh.
    + rewrite attendee_count_insert by apply next_key_fresh. cbn.
      by rewrite bool_decide_eq_true_2.
  - intros Hge. rewrite get_db_register_attendee, Hk.
    by rewrite bool_decide_eq_true_2.
  - intros regs H0 HN. rewrite get_db_register_attendee.
    rewrite register_seq_events, Hk, register_seq_count, H0.
    rewrite bool_decide_eq_true_2; [done|]. lia.
Qed.

Lemma register_attendee_capacity_witness :
  (∃ j d',
     get_db (register_attendee 1 "Ann" "Lee" "ann@x.org" "555") db_two_seats
     = (d', Ok (j, Attendee_init 1 "Ann" "Lee" "ann@x.org" "555"))
     ∧ check_in_status (Attendee_init 1 "Ann" "Lee" "ann@x.org" "555") = false
     ∧ attendees db_two_seats !! j = None
     ∧ attendees d'
       = <[j := Attendee_init 1 "Ann" "Lee" "ann@x.org" "555"]>
           (attendees db_two_seats)
     ∧ events d' = events db_two_seats
     ∧ attendee_count 1 d' = S (attendee_count 1 db_two_seats))
  ∧ get_db (register_attendee 1 "Bob" "Ray" "bob@x.org" "556") db_full
    = (db_full, Raised (HTTPException 400 "Event is full"))
  ∧ get_db (register_attendee 1 "Bob" "Ray" "bob@x.org" "556")
      (register_seq 1 [("Ann", "Lee", "ann@x.org", "555")] db_one_seat).1
    = ((register_seq 1 [("Ann", "Lee", "ann@x.org", "555")] db_one_seat).1,
       Raised (HTTPException 400 "Event is full")).
Proof.
  split_and!.
  - apply (proj1 (register_attendee_capacity db_two_seats 1
                    (Event_init "Launch" "" 10 20 "Hall" 2)
                    "Ann" "Lee" "ann@x.org" "555" ltac:(vm_compute; reflexivity))).
    + vm_compute. reflexivity.
    + apply email_taken_false. vm_compute. reflexivity.
  - apply (proj1 (proj2 (register_attendee_capacity db_full 1
                    (Event_init "Talk" "" 10 20 "Room" 1)
                    "Bob" "Ray" "bob@x.org" "556" ltac:(vm_compute; reflexivity)))).
    vm_compute. discriminate.
  - apply (proj2 (proj2 (register_attendee_capacity db_one_seat 1
                    (Event_init "Talk" "" 10 20 "Room" 1)
                    "Bob" "Ray" "bob@x.org" "556" ltac:(vm_compute; reflexivity)))).
    + vm_compute. reflexivity.
    + vm_compute. reflexivity.
Defined.

(** C2, as stated, fails: the second registration with the same email is
    refused by the storage layer's [IntegrityError], which is not one of
    the service's own errors. *)
Lemma register_attendee_duplicate_counterexample :
  get_db (register_attendee 1 "Ann" "Lee" "ann@x.org" "555") db_two_seats
  = (db_one_taken, Ok (1, Attendee_init 1 "Ann" "Lee" "ann@x.org" "555"))
  ∧ get_db (register_attendee 1 "Bob" "Ray" "ann@x.org" "556") db_one_taken
    = (db_one_taken, Raised IntegrityError)
  ∧ ¬ service_level IntegrityError.
Proof.
  split_and!; [vm_compute; reflexivity .. | apply not_service_level_IntegrityError].
Qed.

(** A registered email stays registered: rows of [attendees] are never
    deleted and no request rewrites an email. *)
Lemma email_taken_serve int_of_str r e d :
  email_taken e (attendees d) = true →
  email_taken e (attendees (serve int_of_str r d)) = true.
Proof.
  rewrite !email_taken_true. intros (j & a & Hj & He).
  destruct r as [n ds s en l m | k st | k f l e' p | k | st loc date | k | rows];
    cbn [serve].
  - rewrite get_db_create_event. destruct (int64 m); cbn; eauto.
  - rewrite get_db_update_event.
    destruct (events d !! k); [|destruct (int64 k)]; cbn; eauto.
  - rewrite get_db_register_attendee.
    destruct (events d !! k); [|destruct (int64 k); by eauto].
    case_bool_decide; [by eauto|].
    destruct (email_taken e' (attendees d)); [by eauto|]. cbn.
    exists j, a. split; [|done]. rewrite lookup_insert_ne; [done|].
    intros <-. by rewrite next_key_fresh in Hj.
  - rewrite get_db_check_in_attendee.
    destruct (attendees d !! k); [|destruct (int64 k); by eauto]. cbn.
    exists j, (if decide (k = j) then set_check_in_status true a else a).
    rewrite lookup_alter. case_decide; [subst j|]; by rewrite ?Hj.
  - rewrite get_db_list_events. eauto.
  - rewrite get_db_list_attendees.
    destruct (bindable (events d) k); eauto.
  - rewrite get_db_bulk_check_in.
    destruct (row_ids int_of_str (attendees d) rows) as [ids|];
      [|by eauto]. cbn.
    exists j, (if decide (j ∈ ids) then set_check_in_status true a else a).
    rewrite lookup_check_in_all, Hj. by case_decide.
Qed.

Lemma email_taken_serve_all int_of_str rs e d :
  email_taken e (attendees d) = true →
  email_taken e (attendees (serve_all int_of_str rs d)) = true.
Proof.
  revert d. induction rs as [|r rs IH]; intros d Hd; [done|].
  apply IH. by apply email_taken_serve.
Qed.

(** C2, amended: when a registration has been accepted, any later
    registration with the same email is refused and stores nothing: with
    404 if its event is unknown (with [OverflowError] if the event id does
    not even fit a signed 64-bit integer), with 400 if its event is full,
    and otherwise with the storage layer's [IntegrityError], which leaves
    the handler unhandled, not as an error of the service. *)
Theorem register_attendee_duplicate_email
    int_of_str d k1 f1 l1 p1 e r d1 rs k2 f2 l2 p2 :
  get_db (register_attendee k1 f1 l1 e p1) d = (d1, Ok r) →
  let d2 := serve_all int_of_str rs d1 in
  ∃ ex,
    get_db (register_attendee k2 f2 l2 e p2) d2 = (d2, Raised ex)
    ∧ (events d2 !! k2 = None → int64 k2 = true →
         ex = HTTPException 404 "Event not found")
    ∧ (events d2 !! k2 = None → int64 k2 = false →
         ex = OverflowError ∧ ¬ service_level ex)
    ∧ (∀ ev, events d2 !! k2 = Some ev →
         Z.of_nat (attendee_count k2 d2) >= max_attendees ev →
         ex = HTTPException 400 "Event is full")
    ∧ (∀ ev, events d2 !! k2 = Some ev →
         Z.of_nat (attendee_count k2 d2) < max_attendees ev →
         ex = IntegrityError ∧ ¬ service_level ex).
Proof.
  intros H1 d2.
  assert (Htaken : email_taken e (attendees d2) = true).
  { apply email_taken_serve_all.
    rewrite get_db_register_attendee in H1.
    destruct (events d !! k1); [|by destruct (int64 k1)].
    case_bool_decide; [done|].
    destruct (email_taken e (attendees d)); [done|].
    injection H1 as <- _. cbn. apply email_taken_true.
    eexists _, _. split; [apply lookup_insert_eq | done]. }
  rewrite get_db_register_attendee, Htaken.
  destruct (events d2 !! k2) as [ev|];
    [case_bool_decide | destruct (int64 k2)];
    eexists; (split; [done|]); split_and!; try done.
  - intros ? [= <-] ?. lia.
  - intros ? [= <-] ?. lia.
  - intros ? [= <-] ?. split; [done | apply not_service_level_IntegrityError].
  - intros _ _. split; [done|]. by intros (? & ? & ?).
Qed.

Lemma register_attendee_duplicate_email_witness :
  let d2 := serve_all ascii_int [POST_attendees_check_in 1] db_one_taken in
  ∃ ex,
    get_db (register_attendee 1 "Bob" "Ray" "ann@x.org" "556") d2
    = (d2, Raised ex)
    ∧ (events d2 !! 1 = None → int64 1 = true →
         ex = HTTPException 404 "Event not found")
    ∧ (events d2 !! 1 = None → int64 1 = false →
         ex = OverflowError ∧ ¬ service_level ex)
    ∧ (∀ ev, events d2 !! 1 = Some ev →
         Z.of_nat (attendee_count 1 d2) >= max_attendees ev →
         ex = HTTPException 400 "Event is full")
    ∧ (∀ ev, events d2 !! 1 = Some ev →
         Z.of_nat (attendee_count 1 d2) < max_attendees ev →
         ex = IntegrityError ∧ ¬ service_level ex).
Proof.
  apply (register_attendee_duplicate_email ascii_int db_two_seats 1
           "Ann" "Lee" "555" "ann@x.org"
           (1, Attendee_init 1 "Ann" "Lee" "ann@x.org" "555")
           db_one_taken [POST_attendees_check_in 1] 1 "Bob" "Ray" "556").
  vm_compute. reflexivity.
Defined.

(** ** Listing *)

Lemma list_events_query st loc date d :
  next_day_exists date →
  ∃ q : Query Event,
    get_db (list_events st loc date) d = (d, Ok (query_all q (events d)))
    ∧ ∀ k ev, holds q (k, ev) = true ↔ matches st loc date ev.
Proof.
  intros Hday. unfold list_events, datetime_add, timedelta_days.
  destruct date as [t|].
  - specialize (Hday t eq_refl). run_handler.
    rewrite bool_decide_eq_true_2 by lia. cbn.
    destruct st as [s|], loc as [l|]; try case_bool_decide; cbn;
      (eexists; split; [reflexivity|]);
      intros k ev; unfold matches; cbn;
      rewrite ?andb_true_iff, ?bool_decide_eq_true;
      (split; [intros ?; split_and!; intros; simplify_eq; intuition lia
              | intros (Hs & Hl & Ht); split_and?; eauto;
                try (by apply Hs); try (by apply Hl);
                try (apply (Ht _ eq_refl))]).
  - run_handler.
    destruct st as [s|], loc as [l|]; try case_bool_decide; cbn;
      (eexists; split; [reflexivity|]);
      intros k ev; unfold matches; cbn;
      rewrite ?andb_true_iff, ?bool_decide_eq_true;
      (split; [intros ?; split_and!; intros; simplify_eq; intuition lia
              | intros (Hs & Hl & Ht); split_and?; eauto;
                try (by apply Hs); try (by apply Hl)]).
Qed.

Lemma list_events_overflow st loc date d :
  ¬ next_day_exists date →
  get_db (list_events st loc date) d = (d, Raised OverflowError).
Proof.
  intros Hday. unfold list_events, datetime_add, timedelta_days.
  destruct date as [t|]; [|by destruct Hday]. run_handler.
  rewrite bool_decide_eq_false_2; [done|].
  intros Ht. apply Hday. by intros ? [= <-].
Qed.

(** C6, as stated, fails: a location filter that is the empty string keeps
    events of every location. *)
Lemma list_events_location_counterexample :
  get_db (list_events None (Some "") None) db_two_seats
  = (db_two_seats, Ok [(1, Event_init "Launch" "" 10 20 "Hall" 2)])
  ∧ location (Event_init "Launch" "" 10 20 "Hall" 2) ≠ "".
Proof. split; [vm_compute; reflexivity | discriminate]. Qed.

(** C6, amended: when the day after the given date, if one is given, is
    still a date (it does not pass the end of year 9999), [list_events]
    returns, once each, exactly the events that pass every filter in
    effect: the status filter when a status is given, the location filter
    when a non-empty location is given, and, when a date is given,
    [start_time >= date] and [end_time <= date + 24h].  An empty location
    string filters nothing.  When the day after the given date is no date,
    [list_events] fails with [OverflowError]. *)
Theorem list_events_filters st loc date d :
  (next_day_exists date →
   ∃ l,
     get_db (list_events st loc date) d = (d, Ok l)
     ∧ NoDup l
     ∧ ∀ k ev, (k, ev) ∈ l
               ↔ events d !! k = Some ev ∧ matches st loc date ev)
  ∧ (¬ next_day_exists date →
     get_db (list_events st loc date) d = (d, Raised OverflowError)).
Proof.
  split; [|apply list_events_overflow].
  intros Hday.
  destruct (list_events_query st loc date d Hday) as (q & Heq & Hq).
  eexists. split; [exact Heq|]. split; [apply NoDup_query_all|].
  intros k ev. by rewrite elem_of_query_all, Hq.
Qed.

Lemma list_events_filters_witness :
  (∃ l,
     get_db (list_events (Some scheduled) (Some "Hall") (Some 5)) db_two_seats
     = (db_two_seats, Ok l)
     ∧ NoDup l
     ∧ ∀ k ev, (k, ev) ∈ l
               ↔ events db_two_seats !! k = Some ev
                 ∧ matches (Some scheduled) (Some "Hall") (Some 5) ev)
  ∧ get_db (list_events None None (Some datetime_max)) db_two_seats
    = (db_two_seats, Raised OverflowError).
Proof.
  split.
  - apply (proj1 (list_events_filters (Some scheduled) (Some "Hall") (Some 5)
                    db_two_seats)).
    intros t [= <-]. vm_compute. split; discriminate.
  - apply (proj2 (list_events_filters None None (Some datetime_max)
                    db_two_seats)).
    intros Hday. specialize (Hday datetime_max eq_refl).
    vm_compute in Hday. destruct Hday as [_ Hle]. by apply Hle.
Defined.

Lemma list_attendees_rows k d :
  bindable (events d) k = true →
  ∃ l,
    get_db (list_attendees k) d = (d, Ok l)
    ∧ NoDup l
    ∧ ∀ j a, (j, a) ∈ l ↔ attendees d !! j = Some a ∧ event_id a = k.
Proof.
  intros Hb. eexists. split; [by rewrite get_db_list_attendees, Hb|].
  split; [apply NoDup_query_all|].
  intros j a. rewrite elem_of_query_all. cbn.
  by rewrite bool_decide_eq_true.
Qed.

(** ** Reachable databases *)

Lemma attendee_count_0 k d :
  (∀ j a, attendees d !! j = Some a → event_id a ≠ k) →
  attendee_count k d = 0%nat.
Proof.
  intros Hno. unfold attendee_count.
  rewrite (elem_of_nil_inv (query_all _ (attendees d))); [done|].
  intros [j a] Hin. apply elem_of_query_all in Hin as [Hj Hq].
  unfold query_filter, query, Attendee_event_id_eq in Hq. cbn in Hq.
  apply bool_decide_eq_true in Hq. by eapply Hno.
Qed.

Lemma consistent_empty : consistent empty_db.
Proof.
  split.
  - intros j a. cbn. by rewrite lookup_empty.
  - intros k ev. cbn. by rewrite lookup_empty.
Qed.

Lemma consistent_create_event n ds s e l m d :
  consistent d → consistent (get_db (create_event n ds s e l m) d).1.
Proof.
  intros [Hfk Hcap]. rewrite get_db_create_event.
  destruct (int64 m); [|done]. cbn.
  pose proof (next_key_fresh (events d)) as Hfresh.
  split.
  - intros j a Hj. cbn in *. rewrite lookup_insert_is_Some'.
    right. by eapply Hfk.
  - intros k ev. cbn. rewrite lookup_insert. case_decide as Hk.
    + intros [= <-]. subst k.
      rewrite (attendee_count_0 (next_key (events d))); [lia|].
      cbn. intros j a Hj Heq. destruct (Hfk j a Hj) as [ev' Hev].
      rewrite Heq in Hev. congruence.
    + intros Hev. apply (Hcap k ev Hev).
Qed.

Lemma consistent_update_event k st d :
  consistent d → consistent (get_db (update_event k st) d).1.
Proof.
  intros [Hfk Hcap]. rewrite get_db_update_event.
  destruct (events d !! k) as [ev0|] eqn:Hk; [|by destruct (int64 k)]. cbn.
  split.
  - intros j a Hj. cbn in *. rewrite lookup_alter_is_Some. by eapply Hfk.
  - intros k' ev. cbn. rewrite lookup_alter. case_decide as Hk'.
    + subst k'. rewrite Hk. intros [= <-]. apply (Hcap k ev0 Hk).
    + intros Hev. apply (Hcap k' ev Hev).
Qed.

Lemma consistent_register_attendee k f l e p d :
  consistent d → consistent (get_db (register_attendee k f l e p) d).1.
Proof.
  intros [Hfk Hcap]. rewrite get_db_register_attendee.
  destruct (events d !! k) as [ev0|] eqn:Hk; [|by destruct (int64 k)].
  case_bool_decide as Hfull; [done|].
  destruct (email_taken e (attendees d)); [done|]. cbn.
  split.
  - intros j a. cbn. rewrite lookup_insert. case_decide.
    + intros [= <-]. cbn. by rewrite Hk.
    + apply Hfk.
  - intros k' ev Hev. cbn in Hev.
    rewrite attendee_count_insert by apply next_key_fresh. cbn.
    specialize (Hcap k' ev Hev). case_bool_decide as Hkk'.
    + subst k'. rewrite Hk in Hev. injection Hev as <-. lia.
    + lia.
Qed.

Lemma consistent_check_in j b d :
  consistent d →
  consistent {| events := events d;
                attendees := alter (set_check_in_status b) j (attendees d) |}.
Proof.
  intros [Hfk Hcap]. split.
  - intros i a. cbn. rewrite lookup_alter. case_decide.
    + destruct (attendees d !! j) as [a0|] eqn:Hj; [|done].
      intros [= <-]. cbn. by eapply Hfk.
    + apply Hfk.
  - intros k ev Hev. cbn in Hev. rewrite attendee_count_check_in.
    by apply Hcap.
Qed.

Lemma consistent_check_in_all ids d :
  consistent d →
  consistent {| events := events d;
                attendees := check_in_all ids (attendees d) |}.
Proof.
  revert d. induction ids as [|i ids IH]; intros d Hd.
  - by destruct d.
  - apply (IH _ (consistent_check_in i true d Hd)).
Qed.

Lemma consistent_serve int_of_str r d :
  consistent d → consistent (serve int_of_str r d).
Proof.
  intros Hd.
  destruct r as [n ds s e l m | k st | k f l e p | k | st loc date | k | rows];
    cbn [serve].
  - by apply consistent_create_event.
  - by apply consistent_update_event.
  - by apply consistent_register_attendee.
  - rewrite get_db_check_in_attendee.
    destruct (attendees d !! k); [|by destruct (int64 k)].
    by apply consistent_check_in.
  - by rewrite get_db_list_events.
  - rewrite get_db_list_attendees. by destruct (bindable (events d) k).
  - rewrite get_db_bulk_check_in.
    destruct (row_ids int_of_str (attendees d) rows); [|done].
    by apply consistent_check_in_all.
Qed.

Lemma consistent_serve_all int_of_str rs d :
  consistent d → consistent (serve_all int_of_str rs d).
Proof.
  revert d. induction rs as [|r rs IH]; intros d Hd; [done|].
  apply IH. by apply consistent_serve.
Qed.

(** C4, as stated, fails: an event created with a negative capacity has
    zero attendees, which is more than its [max_attendees]. *)
Lemma capacity_invariant_counterexample :
  events (serve_all ascii_int [POST_events "Void" "" 10 20 "Hall" (-1)] empty_db)
    !! 1 = Some (Event_init "Void" "" 10 20 "Hall" (-1))
  ∧ ¬ (Z.of_nat
         (attendee_count 1
            (serve_all ascii_int [POST_events "Void" "" 10 20 "Hall" (-1)]
               empty_db))
       ≤ max_attendees (Event_init "Void" "" 10 20 "Hall" (-1))).
Proof. split; [vm_compute; reflexivity|]. vm_compute. by intros H. Qed.

(** C4, amended: in every database reached from the empty one by serving
    requests one after another, the number of attendees of each event is at
    most the larger of its [max_attendees] and zero, so at most
    [max_attendees] for every event whose [max_attendees] is not negative. *)
Theorem capacity_invariant int_of_str rs k ev :
  events (serve_all int_of_str rs empty_db) !! k = Some ev →
  Z.of_nat (attendee_count k (serve_all int_of_str rs empty_db))
    ≤ Z.max 0 (max_attendees ev)
  ∧ (0 ≤ max_attendees ev →
     Z.of_nat (attendee_count k (serve_all int_of_str rs empty_db))
       ≤ max_attendees ev).
Proof.
  intros Hk.
  destruct (consistent_serve_all int_of_str rs empty_db consistent_empty)
    as [_ Hcap].
  specialize (Hcap k ev Hk). split; [done | lia].
Qed.

Lemma capacity_invariant_witness :
  Z.of_nat
    (attendee_count 1
       (serve_all ascii_int
          [POST_events "Talk" "" 10 20 "Room" 1;
           POST_attendees 1 "Ann" "Lee" "ann@x.org" "555";
           POST_attendees 1 "Bob" "Ray" "bob@x.org" "556"] empty_db))
  ≤ 1.
Proof.
  apply (capacity_invariant ascii_int
           [POST_events "Talk" "" 10 20 "Room" 1;
            POST_attendees 1 "Ann" "Lee" "ann@x.org" "555";
            POST_attendees 1 "Bob" "Ray" "bob@x.org" "556"]
           1 (Event_init "Talk" "" 10 20 "Room" 1)).
  - vm_compute. reflexivity.
  - vm_compute. discriminate.
Defined.

(** C10, as stated, fails: for an [event_id] outside the signed 64-bit
    range, which matches no event, [list_attendees] does not return the
    empty list: it fails with [OverflowError]. *)
Lemma list_attendees_overflow_counterexample :
  events db_one_taken !! 9223372036854775808 = None
  ∧ get_db (list_attendees 9223372036854775808) db_one_taken
    = (db_one_taken, Raised OverflowError).
Proof. split; vm_compute; reflexivity. Qed.

(** C10, amended: for an [event_id] that fits a signed 64-bit integer,
    [list_attendees] does not fail and returns, once each, exactly the
    attendee rows whose [event_id] is the one asked for; in a database
    reached from the empty one by serving requests, asking for such an id
    that no event has returns the empty list, not an error.  For an
    [event_id] that does not fit and that no event has, it fails with
    [OverflowError]. *)
Theorem list_attendees_by_event d k :
  (int64 k = true →
   ∃ l,
     get_db (list_attendees k) d = (d, Ok l)
     ∧ NoDup l
     ∧ (∀ j a, (j, a) ∈ l ↔ attendees d !! j = Some a ∧ event_id a = k)
     ∧ ((∃ int_of_str rs, d = serve_all int_of_str rs empty_db) →
        events d !! k = None → l = []))
  ∧ (int64 k = false → events d !! k = None →
     get_db (list_attendees k) d = (d, Raised OverflowError)).
Proof.
  split.
  - intros Hk.
    destruct (list_attendees_rows k d (bindable_int64 _ _ Hk))
      as (l & Heq & Hnd & Hin).
    exists l. split_and!; try done.
    intros (int_of_str & rs & ->) Hnone.
    destruct (consistent_serve_all int_of_str rs empty_db consistent_empty)
      as [Hfk _].
    apply elem_of_nil_inv. intros [j a] Hja.
    apply Hin in Hja as [Hj <-].
    destruct (Hfk j a Hj) as [ev Hev]. congruence.
  - intros Hk Hnone.
    by rewrite get_db_list_attendees, (bindable_None _ _ Hnone), Hk.
Qed.

Lemma list_attendees_by_event_witness :
  get_db (list_attendees 5) db_one_taken = (db_one_taken, Ok [])
  ∧ get_db (list_attendees (-9223372036854775809)) db_one_taken
    = (db_one_taken, Raised OverflowError).
Proof.
  split.
  - destruct (proj1 (list_attendees_by_event db_one_taken 5))
      as (l & Heq & _ & _ & Hnil); [vm_compute; reflexivity|].
    rewrite Heq, Hnil; [reflexivity | | vm_compute; reflexivity].
    exists ascii_int,
      [POST_events "Launch" "" 10 20 "Hall" 2;
       POST_attendees 1 "Ann" "Lee" "ann@x.org" "555"].
    vm_compute. reflexivity.
  - apply (proj2 (list_attendees_by_event db_one_taken
                    (-9223372036854775809)));
      vm_compute; reflexivity.
Defined.

(** ** Bulk check-in *)

Lemma row_ids_names int_of_str t rows ids :
  Forall2 (names_id int_of_str) rows ids →
  row_ids int_of_str t rows
  = if forallb (bindable t) ids then Ok ids else Raised OverflowError.
Proof.
  induction 1 as [|r n rows ids (field & rest & -> & Hn) _ IH]; [done|].
  cbn. rewrite Hn, IH.
  destruct (bindable t n); [|done]. by destruct (forallb (bindable t) ids).
Qed.









(** ** How rows evolve under requests *)

Lemma set_status_status ev : set_status (status ev) ev = ev.
Proof. by destruct ev. Qed.

Lemma set_check_in_status_true a :
  check_in_status a = true → set_check_in_status true a = a.
Proof. destruct a. cbn. by intros ->. Qed.

Lemma check_in_attendee_db k d :
  (get_db (check_in_attendee k) d).1
  = {| events := events d;
       attendees := alter (set_check_in_status true) k (attendees d) |}.
Proof.
  rewrite get_db_check_in_attendee.
  destruct (attendees d !! k) eqn:Hk; [done|].
  rewrite alter_id' by (by rewrite Hk). by destruct d, (int64 k).
Qed.

Lemma attendee_count_check_in_all k ids d ev :
  attendee_count k {| events := ev;
                      attendees := check_in_all ids (attendees d) |}
  = attendee_count k d.
Proof.
  unfold attendee_count. cbn. generalize (attendees d). clear d.
  induction ids as [|i ids IH]; intros t; [done|].
  cbn. unfold check_in_all in IH. rewrite IH.
  by apply length_query_all_alter.
Qed.

(** What one request can do to the two tables. *)
Lemma serve_tables int_of_str r d :
  (events (serve int_of_str r d) = events d
   ∨ (∃ ev, events d !! next_key (events d) = None
            ∧ events (serve int_of_str r d)
              = <[next_key (events d) := ev]> (events d))
   ∨ (∃ k st, events (serve int_of_str r d)
              = alter (set_status st) k (events d)))
  ∧ (attendees (serve int_of_str r d) = attendees d
     ∨ (∃ a ev, events d !! event_id a = Some ev
                ∧ Z.of_nat (attendee_count (event_id a) d) < max_attendees ev
                ∧ email_taken (email a) (attendees d) = false
                ∧ check_in_status a = false
                ∧ attendees (serve int_of_str r d)
                  = <[next_key (attendees d) := a]> (attendees d))
     ∨ (∃ ids, attendees (serve int_of_str r d)
               = check_in_all ids (attendees d))).
Proof.
  destruct r as [n ds s e l m | k st | k f l e p | k | st loc date | k | rows];
    cbn [serve].
  - rewrite get_db_create_event.
    destruct (int64 m); cbn; [|by split; left].
    split; [right; left|by left].
    eexists. split; [apply next_key_fresh | done].
  - rewrite get_db_update_event.
    destruct (events d !! k); [|destruct (int64 k)]; cbn; split; eauto.
  - rewrite get_db_register_attendee.
    destruct (events d !! k) as [ev|] eqn:Hk;
      [|destruct (int64 k); by split; left].
    case_bool_decide as Hfull; [by split; left|].
    destruct (email_taken e (attendees d)) eqn:He; [by split; left|]. cbn.
    split; [by left|]. right; left.
    exists (Attendee_init k f l e p), ev. cbn. split_and!; try done. lia.
  - rewrite check_in_attendee_db. cbn. split; [by left|].
    right; right. by exists [k].
  - rewrite get_db_list_events. split; by left.
  - rewrite get_db_list_attendees.
    destruct (bindable (events d) k); split; by left.
  - rewrite get_db_bulk_check_in.
    destruct (row_ids int_of_str (attendees d) rows) as [ids|]; cbn;
      [|by split; left].
    split; [by left|]. right; right. by exists ids.
Qed.

(** ** Missing rows *)

(** X1: [register_attendee] answers 404 exactly when no event has the given
    key and the key fits a signed 64-bit integer, and fails with
    [OverflowError] exactly when no event has the key and the key does not
    fit; both come before capacity and email are looked at, and nothing is
    stored then. *)
Theorem register_attendee_not_found d k f l e p :
  ((get_db (register_attendee k f l e p) d).2
     = Raised (HTTPException 404 "Event not found")
   ↔ events d !! k = None ∧ int64 k = true)
  ∧ ((get_db (register_attendee k f l e p) d).2 = Raised OverflowError
     ↔ events d !! k = None ∧ int64 k = false)
  ∧ (events d !! k = None →
     (get_db (register_attendee k f l e p) d).1 = d).
Proof.
  rewrite get_db_register_attendee.
  destruct (events d !! k) as [ev|].
  - split_and!; [| |done];
      (case_bool_decide; [|destruct (email_taken e (attendees d))]);
      cbn; split; try done; by intros [? ?].
  - destruct (int64 k); cbn; split_and!; try done;
      split; try done; by intros [? ?].
Qed.

Lemma register_attendee_not_found_witness :
  (get_db (register_attendee 9 "Bob" "Ray" "ann@x.org" "556") db_one_taken).1
  = db_one_taken.
Proof.
  apply (proj2 (proj2 (register_attendee_not_found db_one_taken 9
                         "Bob" "Ray" "ann@x.org" "556"))).
  vm_compute. reflexivity.
Defined.

(** X2: [check_in_attendee] answers 404 exactly when no attendee has the
    given key and the key fits a signed 64-bit integer, and fails with
    [OverflowError] exactly when no attendee has the key and the key does
    not fit; it stores nothing then.  When it succeeds, the attendee has
    [check_in_status] true and keeps all its other columns, and no other
    attendee and no event changes. *)
Theorem check_in_attendee_frame d k :
  ((get_db (check_in_attendee k) d).2
     = Raised (HTTPException 404 "Attendee not found")
   ↔ attendees d !! k = None ∧ int64 k = true)
  ∧ ((get_db (check_in_attendee k) d).2 = Raised OverflowError
     ↔ attendees d !! k = None ∧ int64 k = false)
  ∧ (attendees d !! k = None → (get_db (check_in_attendee k) d).1 = d)
  ∧ (∀ a, attendees d !! k = Some a →
       let d' := (get_db (check_in_attendee k) d).1 in
       attendees d' !! k
       = Some (Build_Attendee (first_name a) (last_name a) (email a)
                 (phone_number a) (event_id a) true)
       ∧ (∀ j, j ≠ k → attendees d' !! j = attendees d !! j)
       ∧ events d' = events d).
Proof.
  rewrite get_db_check_in_attendee. split_and!.
  - destruct (attendees d !! k); [|destruct (int64 k)]; cbn;
      split; try done; by intros [? ?].
  - destruct (attendees d !! k); [|destruct (int64 k)]; cbn;
      split; try done; by intros [? ?].
  - intros ->. by destruct (int64 k).
  - intros a Hk. rewrite Hk. cbn. rewrite lookup_alter_eq, Hk.
    split_and!; [done | | done].
    intros j Hj. by rewrite lookup_alter_ne.
Qed.

Lemma check_in_attendee_frame_witness :
  (get_db (check_in_attendee 4) db_one_taken).1 = db_one_taken
  ∧ attendees (get_db (check_in_attendee 1) db_one_taken).1 !! 1
    = Some (Build_Attendee "Ann" "Lee" "ann@x.org" "555" 1 true).
Proof.
  split.
  - apply (proj1 (proj2 (proj2 (check_in_attendee_frame db_one_taken 4)))).
    vm_compute. reflexivity.
  - apply (proj2 (proj2 (proj2 (check_in_attendee_frame db_one_taken 1)))
             (Attendee_init 1 "Ann" "Lee" "ann@x.org" "555")).
    vm_compute. reflexivity.
Defined.

(** ** Status updates *)

Lemma alter_set_status_twice s1 s2 k (t : gmap Z Event) :
  alter (set_status s2) k (alter (set_status s1) k t)
  = alter (set_status s2) k t.
Proof.
  apply map_eq. intros j. rewrite !lookup_alter.
  case_decide; [|done]. rewrite decide_True by done.
  by destruct (t !! k).
Qed.

(** X3: of two status updates of the same event the later one wins: database
    and answer are those of the later update alone, also when the event
    does not exist. *)
Theorem update_event_last_wins d k s1 s2 :
  get_db (update_event k s2) (get_db (update_event k s1) d).1
  = get_db (update_event k s2) d.
Proof.
  rewrite (get_db_update_event k s1 d).
  destruct (events d !! k) as [ev|] eqn:Hk.
  - rewrite !get_db_update_event. cbn.
    rewrite lookup_alter_eq, Hk. cbn. by rewrite alter_set_status_twice.
  - by destruct (int64 k).
Qed.

(** X4: the status of an event plays no part in registration: after any
    status update, [canceled] and [completed] included, a registration gets
    the answer it would have got before the update. *)
Theorem register_attendee_ignores_status d k st k' f l e p :
  (get_db (register_attendee k' f l e p)
     (get_db (update_event k st) d).1).2
  = (get_db (register_attendee k' f l e p) d).2.
Proof.
  rewrite get_db_update_event.
  destruct (events d !! k) as [ev0|] eqn:Hk; [|by destruct (int64 k)]. cbn.
  rewrite !get_db_register_attendee. cbn.
  unfold attendee_count. cbn. rewrite lookup_alter.
  case_decide as Hkk'.
  - subst k'. rewrite Hk. cbn.
    case_bool_decide; [done|].
    by destruct (email_taken e (attendees d)).
  - destruct (events d !! k'); [|by destruct (int64 k')].
    case_bool_decide; [done|].
    by destruct (email_taken e (attendees d)).
Qed.

(** ** What every sequence of requests keeps *)

Lemma serve_all_cons int_of_str r rs d :
  serve_all int_of_str (r :: rs) d
  = serve_all int_of_str rs (serve int_of_str r d).
Proof. done. Qed.

Lemma serve_attendee_row int_of_str r d k a :
  attendees d !! k = Some a →
  ∃ a', attendees (serve int_of_str r d) !! k = Some a'
        ∧ (a' = a ∨ a' = set_check_in_status true a).
Proof.
  intros Hk.
  destruct (serve_tables int_of_str r d)
    as [_ [-> | [(a0 & ev & _ & _ & _ & _ & ->) | (ids & ->)]]].
  - eauto.
  - exists a. split; [|by left]. rewrite lookup_insert_ne; [done|].
    intros <-. by rewrite next_key_fresh in Hk.
  - rewrite lookup_check_in_all, Hk. case_decide; cbn; eauto.
Qed.

Lemma serve_event_row int_of_str r d k ev :
  events d !! k = Some ev →
  ∃ st, events (serve int_of_str r d) !! k = Some (set_status st ev).
Proof.
  intros Hk.
  destruct (serve_tables int_of_str r d)
    as [[-> | [(ev0 & Hfresh & ->) | (k0 & st & ->)]] _].
  - exists (status ev). by rewrite set_status_status.
  - exists (status ev). rewrite set_status_status, lookup_insert_ne; [done|].
    intros <-. congruence.
  - rewrite lookup_alter. case_decide.
    + subst k0. rewrite Hk. by exists st.
    + exists (status ev). by rewrite set_status_status.
Qed.

Lemma serve_attendee_count int_of_str r d k :
  (attendee_count k d ≤ attendee_count k (serve int_of_str r d))%nat.
Proof.
  destruct (serve_tables int_of_str r d)
    as [_ [Heq | [(a0 & ev & _ & _ & _ & _ & Heq) | (ids & Heq)]]].
  - unfold attendee_count. by rewrite Heq.
  - pose proof (attendee_count_insert k (next_key (attendees d)) a0 d
                  (next_key_fresh _)) as Hc.
    unfold attendee_count in *. cbn in Hc. rewrite Heq, Hc. lia.
  - pose proof (attendee_count_check_in_all k ids d (events d)) as Hc.
    unfold attendee_count in *. cbn in Hc. by rewrite Heq, Hc.
Qed.

Lemma lookup_check_in_all_email ids t j a :
  check_in_all ids t !! j = Some a →
  ∃ b, t !! j = Some b ∧ email b = email a.
Proof.
  rewrite lookup_check_in_all.
  destruct (t !! j) as [b|]; [|by case_decide].
  case_decide; cbn; intros [= <-]; eauto.
Qed.

Lemma unique_emails_serve int_of_str r d :
  unique_emails d → unique_emails (serve int_of_str r d).
Proof.
  intros Hu j1 j2 a1 a2.
  destruct (serve_tables int_of_str r d)
    as [_ [-> | [(a0 & ev & _ & _ & Hfree & _ & ->) | (ids & ->)]]].
  - apply Hu.
  - rewrite email_taken_false in Hfree.
    rewrite !lookup_insert.
    repeat case_decide; subst; intros H1 H2 He; simplify_eq; try done.
    + exfalso. by eapply Hfree.
    + exfalso. by eapply Hfree.
    + by eapply Hu.
  - intros H1 H2 He.
    apply lookup_check_in_all_email in H1 as (b1 & H1 & E1).
    apply lookup_check_in_all_email in H2 as (b2 & H2 & E2).
    apply (Hu j1 j2 b1 b2); [done | done | congruence].
Qed.

Lemma unique_emails_empty : unique_emails empty_db.
Proof. intros j1 j2 a1 a2. cbn. by rewrite lookup_empty. Qed.

Lemma unique_emails_serve_all int_of_str rs d :
  unique_emails d → unique_emails (serve_all int_of_str rs d).
Proof.
  revert d. induction rs as [|r rs IH]; intros d Hd; [done|].
  apply IH. by apply unique_emails_serve.
Qed.

(** X5: in every database reached from the empty one by serving requests, no
    two attendees have the same email. *)
Theorem reachable_unique_emails int_of_str rs j1 j2 a1 a2 :
  attendees (serve_all int_of_str rs empty_db) !! j1 = Some a1 →
  attendees (serve_all int_of_str rs empty_db) !! j2 = Some a2 →
  email a1 = email a2 →
  j1 = j2.
Proof.
  apply (unique_emails_serve_all int_of_str rs empty_db unique_emails_empty).
Qed.

Lemma reachable_unique_emails_witness :
  let d := serve_all ascii_int
             [POST_events "Launch" "" 10 20 "Hall" 2;
              POST_attendees 1 "Ann" "Lee" "ann@x.org" "555";
              POST_attendees 1 "Bob" "Ray" "ann@x.org" "556"] empty_db in
  attendees d !! 1 = Some (Attendee_init 1 "Ann" "Lee" "ann@x.org" "555")
  ∧ (1 : Z) = 1.
Proof.
  split; [vm_compute; reflexivity|].
  apply (reachable_unique_emails ascii_int
           [POST_events "Launch" "" 10 20 "Hall" 2;
            POST_attendees 1 "Ann" "Lee" "ann@x.org" "555";
            POST_attendees 1 "Bob" "Ray" "ann@x.org" "556"]
           1 1 (Attendee_init 1 "Ann" "Lee" "ann@x.org" "555")
           (Attendee_init 1 "Ann" "Lee" "ann@x.org" "555"));
    vm_compute; reflexivity.
Defined.

(** X6: in every database reached from the empty one by serving requests,
    the [event_id] of each attendee is the key of an event. *)
Theorem reachable_foreign_key int_of_str rs j a :
  attendees (serve_all int_of_str rs empty_db) !! j = Some a →
  is_Some (events (serve_all int_of_str rs empty_db) !! event_id a).
Proof.
  apply (consistent_serve_all int_of_str rs empty_db consistent_empty).
Qed.

Lemma reachable_foreign_key_witness :
  is_Some
    (events
       (serve_all ascii_int
          [POST_events "Launch" "" 10 20 "Hall" 2;
           POST_attendees 3 "Eve" "Poe" "eve@x.org" "557";
           POST_attendees 1 "Ann" "Lee" "ann@x.org" "555"] empty_db)
     !! event_id (Attendee_init 1 "Ann" "Lee" "ann@x.org" "555")).
Proof.
  apply (reachable_foreign_key ascii_int
           [POST_events "Launch" "" 10 20 "Hall" 2;
            POST_attendees 3 "Eve" "Poe" "eve@x.org" "557";
            POST_attendees 1 "Ann" "Lee" "ann@x.org" "555"] 1).
  vm_compute. reflexivity.
Defined.

(** X7: no request deletes an attendee or rewrites one: after any sequence
    of requests an attendee row is either as it was or as it was with
    [check_in_status] set to true, and a checked-in attendee stays
    checked in. *)
Theorem attendee_row_persists int_of_str rs d k a :
  attendees d !! k = Some a →
  ∃ a', attendees (serve_all int_of_str rs d) !! k = Some a'
        ∧ (a' = a ∨ a' = set_check_in_status true a)
        ∧ (check_in_status a = true → a' = a).
Proof.
  revert d a. induction rs as [|r rs IH]; intros d a Hk.
  - exists a. split_and!; [done | by left | done].
  - destruct (serve_attendee_row int_of_str r d k a Hk) as (a1 & H1 & Ha1).
    destruct (IH _ _ H1) as (a' & H' & Ha' & Hkeep).
    exists a'. rewrite serve_all_cons. split_and!; [done | |].
    + destruct Ha1 as [-> | ->]; [done|]. destruct Ha' as [-> | ->]; by right.
    + intros Hc. rewrite (set_check_in_status_true a Hc) in Ha1.
      assert (a1 = a) as -> by (by destruct Ha1).
      by apply Hkeep.
Qed.

Lemma attendee_row_persists_witness :
  ∃ a',
    attendees
      (serve_all ascii_int
         [POST_attendees_check_in 1; PUT_events 1 canceled;
          POST_attendees_bulk_check_in [["x"]]] db_one_taken) !! 1 = Some a'
    ∧ (a' = Attendee_init 1 "Ann" "Lee" "ann@x.org" "555"
       ∨ a' = set_check_in_status true
                (Attendee_init 1 "Ann" "Lee" "ann@x.org" "555"))
    ∧ (check_in_status (Attendee_init 1 "Ann" "Lee" "ann@x.org" "555") = true
       → a' = Attendee_init 1 "Ann" "Lee" "ann@x.org" "555").
Proof.
  apply (attendee_row_persists ascii_int
           [POST_attendees_check_in 1; PUT_events 1 canceled;
            POST_attendees_bulk_check_in [["x"]]] db_one_taken 1).
  vm_compute. reflexivity.
Defined.

(** X8: no request deletes an event or changes any column of it other than
    [status]; in particular [max_attendees] is fixed at creation. *)
Theorem event_row_persists int_of_str rs d k ev :
  events d !! k = Some ev →
  ∃ st, events (serve_all int_of_str rs d) !! k = Some (set_status st ev).
Proof.
  revert d ev. induction rs as [|r rs IH]; intros d ev Hk.
  - exists (status ev). by rewrite set_status_status.
  - destruct (serve_event_row int_of_str r d k ev Hk) as (s1 & H1).
    destruct (IH _ _ H1) as (st & Hst).
    exists st. by rewrite serve_all_cons, Hst.
Qed.

Lemma event_row_persists_witness :
  ∃ st,
    events
      (serve_all ascii_int
         [PUT_events 1 ongoing;
          POST_events "Launch" "again" 30 40 "Yard" 9;
          PUT_events 1 completed] db_two_seats) !! 1
    = Some (set_status st (Event_init "Launch" "" 10 20 "Hall" 2)).
Proof.
  apply (event_row_persists ascii_int
           [PUT_events 1 ongoing;
            POST_events "Launch" "again" 30 40 "Yard" 9;
            PUT_events 1 completed] db_two_seats 1).
  vm_compute. reflexivity.
Defined.

(** ** Capacity over time *)

Lemma serve_all_attendee_count int_of_str rs d k :
  (attendee_count k d ≤ attendee_count k (serve_all int_of_str rs d))%nat.
Proof.
  revert d. induction rs as [|r rs IH]; intros d; [done|].
  rewrite serve_all_cons.
  etrans; [apply (serve_attendee_count int_of_str r)|apply IH].
Qed.

Lemma serve_all_event_capacity int_of_str rs d k ev :
  events d !! k = Some ev →
  ∃ ev', events (serve_all int_of_str rs d) !! k = Some ev'
         ∧ max_attendees ev' = max_attendees ev.
Proof.
  revert d ev. induction rs as [|r rs IH]; intros d ev Hk; [by eauto|].
  destruct (serve_event_row int_of_str r d k ev Hk) as (s1 & H1).
  destruct (IH _ _ H1) as (ev' & Hev' & Hmax).
  exists ev'. by rewrite serve_all_cons.
Qed.

(** X9: a full event stays full: once a registration has been refused with
    400, every registration for that event is refused with 400 after any
    further requests, whoever registers. *)
Theorem register_attendee_full_forever
    int_of_str rs d k f l e p f' l' e' p' :
  (get_db (register_attendee k f l e p) d).2
  = Raised (HTTPException 400 "Event is full") →
  get_db (register_attendee k f' l' e' p') (serve_all int_of_str rs d)
  = (serve_all int_of_str rs d, Raised (HTTPException 400 "Event is full")).
Proof.
  rewrite !get_db_register_attendee.
  destruct (events d !! k) as [ev|] eqn:Hk; [|by destruct (int64 k)].
  case_bool_decide as Hfull;
    [|by destruct (email_taken e (attendees d))].
  intros _.
  destruct (serve_all_event_capacity int_of_str rs d k ev Hk)
    as (ev' & -> & Hmax).
  pose proof (serve_all_attendee_count int_of_str rs d k).
  rewrite bool_decide_eq_true_2; [done|]. lia.
Qed.

Lemma register_attendee_full_forever_witness :
  let d := serve_all ascii_int
             [PUT_events 1 canceled; POST_attendees_check_in 1] db_full in
  get_db (register_attendee 1 "Eve" "Poe" "eve@x.org" "557") d
  = (d, Raised (HTTPException 400 "Event is full")).
Proof.
  apply (register_attendee_full_forever ascii_int
           [PUT_events 1 canceled; POST_attendees_check_in 1] db_full 1
           "Bob" "Ray" "bob@x.org" "556").
  vm_compute. reflexivity.
Defined.

(** X10: an event created with a [max_attendees <= 0] that fits a signed
    64-bit integer never takes an attendee: every registration for it is
    refused with 400, after any requests. *)
Theorem create_event_without_seats
    int_of_str n ds s e l m rs d f' l' e' p' :
  m ≤ 0 →
  int64 m = true →
  let created := get_db (create_event n ds s e l m) d in
  ∃ k ev,
    created.2 = Ok (k, ev)
    ∧ get_db (register_attendee k f' l' e' p')
        (serve_all int_of_str rs created.1)
      = (serve_all int_of_str rs created.1,
         Raised (HTTPException 400 "Event is full")).
Proof.
  intros Hm Hfit created. subst created.
  rewrite get_db_create_event, Hfit. cbn.
  eexists _, _. split; [done|].
  set (d1 := {| events := _; attendees := attendees d |}).
  destruct (serve_all_event_capacity int_of_str rs d1
              (next_key (events d)) (Event_init n ds s e l m))
    as (ev' & Hev' & Hmax); [apply lookup_insert_eq|].
  rewrite get_db_register_attendee, Hev'.
  rewrite bool_decide_eq_true_2; [done|]. cbn in Hmax. lia.
Qed.

Lemma create_event_without_seats_witness :
  let created := get_db (create_event "Void" "" 10 20 "Hall" 0) db_one_taken in
  ∃ k ev,
    created.2 = Ok (k, ev)
    ∧ get_db (register_attendee k "Eve" "Poe" "eve@x.org" "557")
        (serve_all ascii_int [PUT_events 2 ongoing] created.1)
      = (serve_all ascii_int [PUT_events 2 ongoing] created.1,
         Raised (HTTPException 400 "Event is full")).
Proof.
  apply (create_event_without_seats ascii_int "Void" "" 10 20 "Hall" 0
           [PUT_events 2 ongoing] db_one_taken "Eve" "Poe" "eve@x.org" "557").
  - lia.
  - vm_compute. reflexivity.
Defined.

(** ** Bulk check-in and single check-ins *)






Lemma bindable_check_in_all ids t n :
  bindable (check_in_all ids t) n = bindable t n.
Proof.
  unfold bindable. f_equal. apply bool_decide_ext.
  rewrite lookup_check_in_all. case_decide; [|done].
  by rewrite fmap_is_Some.
Qed.

Lemma forallb_bindable_check_in_all ids t ns :
  forallb (bindable (check_in_all ids t)) ns = forallb (bindable t) ns.
Proof.
  induction ns as [|n ns IH]; [done|].
  cbn. by rewrite bindable_check_in_all, IH.
Qed.



(** X13: uploading the same rows again changes nothing: the second bulk
    check-in answers as the first and leaves the database of the first. *)
Theorem bulk_check_in_idempotent int_of_str rows ids d :
  Forall2 (names_id int_of_str) rows ids →
  get_db (bulk_check_in int_of_str rows)
    (get_db (bulk_check_in int_of_str rows) d).1
  = get_db (bulk_check_in int_of_str rows) d.
Proof.
  intros Hrows. rewrite (get_db_bulk_check_in int_of_str rows d).
  rewrite (row_ids_names _ _ _ _ Hrows).
  destruct (forallb (bindable (attendees d)) ids) eqn:Hfit; cbn [fst].
  - rewrite get_db_bulk_check_in, (row_ids_names _ _ _ _ Hrows). cbn.
    rewrite forallb_bindable_check_in_all, Hfit. do 2 f_equal.
    apply map_eq. intros k. rewrite !lookup_check_in_all.
    case_decide; [|done]. by destruct (attendees d !! k).
  - by rewrite get_db_bulk_check_in, (row_ids_names _ _ _ _ Hrows), Hfit.
Qed.

Lemma bulk_check_in_idempotent_witness :
  get_db (bulk_check_in ascii_int [["1"]; ["7"]])
    (get_db (bulk_check_in ascii_int [["1"]; ["7"]]) db_one_taken).1
  = get_db (bulk_check_in ascii_int [["1"]; ["7"]]) db_one_taken.
Proof.
  apply (bulk_check_in_idempotent ascii_int [["1"]; ["7"]] [1; 7]).
  repeat constructor; eexists _, _; split; reflexivity.
Defined.




(** ** Writing, then listing *)

Lemma next_day_exists_dec date :
  next_day_exists date ∨ ¬ next_day_exists date.
Proof.
  destruct date as [t|]; [|by left].
  destruct (decide (0 ≤ t + 86400000000 ≤ datetime_max)) as [Ht|Ht].
  - left. by intros ? [= <-].
  - right. intros Hday. by apply Ht, Hday.
Qed.

Lemma list_events_elem st loc date d rows k ev :
  (get_db (list_events st loc date) d).2 = Ok rows →
  (k, ev) ∈ rows ↔ events d !! k = Some ev ∧ matches st loc date ev.
Proof.
  destruct (next_day_exists_dec date) as [Hday|Hday].
  - destruct (list_events_query st loc date d Hday) as (q & -> & Hq).
    cbn. intros [= <-]. by rewrite elem_of_query_all, Hq.
  - by rewrite (list_events_overflow st loc date d Hday).
Qed.

Lemma list_events_ok st loc date d :
  next_day_exists date →
  ∃ rows, get_db (list_events st loc date) d = (d, Ok rows).
Proof.
  intros Hday.
  destruct (list_events_query st loc date d Hday) as (q & -> & _). eauto.
Qed.

(** X15: when [max_attendees] fits a signed 64-bit integer and the day after
    the filter date is still a date, a created event shows up in the
    listings whose filters it passes, and in no other; what was listed
    before is still listed, and nothing else is. *)
Theorem create_event_then_list n ds s e l m d st loc date :
  int64 m = true →
  next_day_exists date →
  ∃ k ev d' before after,
    get_db (create_event n ds s e l m) d = (d', Ok (k, ev))
    ∧ get_db (list_events st loc date) d = (d, Ok before)
    ∧ get_db (list_events st loc date) d' = (d', Ok after)
    ∧ ∀ r, r ∈ after ↔ r ∈ before ∨ (r = (k, ev) ∧ matches st loc date ev).
Proof.
  intros Hfit Hday.
  destruct (list_events_ok st loc date d Hday) as (before & Hb).
  rewrite get_db_create_event, Hfit.
  set (k := next_key (events d)). set (ev := Event_init n ds s e l m).
  set (d' := {| events := <[k:=ev]> (events d); attendees := attendees d |}).
  destruct (list_events_ok st loc date d' Hday) as (after & Ha).
  exists k, ev, d', before, after. split_and!; try done.
  intros [k0 ev0].
  rewrite (list_events_elem st loc date d' after) by (by rewrite Ha).
  rewrite (list_events_elem st loc date d before) by (by rewrite Hb).
  cbn. rewrite lookup_insert. case_decide as Hk.
  - subst k0. split.
    + intros [[= <-] Hm]. by right.
    + intros [[Hk0 _] | [[= <-] Hm]]; [|done].
      subst k. by rewrite next_key_fresh in Hk0.
  - split; [intros [? ?]; by left|].
    intros [[? ?] | [[= ? ?] _]]; [done | congruence].
Qed.

Lemma create_event_then_list_witness :
  ∃ k ev d' before after,
    get_db (create_event "Fair" "" 30 40 "Yard" 9) db_two_seats
    = (d', Ok (k, ev))
    ∧ get_db (list_events (Some scheduled) None (Some 25)) db_two_seats
      = (db_two_seats, Ok before)
    ∧ get_db (list_events (Some scheduled) None (Some 25)) d' = (d', Ok after)
    ∧ ∀ r, r ∈ after
           ↔ r ∈ before
             ∨ (r = (k, ev) ∧ matches (Some scheduled) None (Some 25) ev).
Proof.
  apply (create_event_then_list "Fair" "" 30 40 "Yard" 9 db_two_seats
           (Some scheduled) None (Some 25)).
  - vm_compute. reflexivity.
  - intros t [= <-]. vm_compute. split; discriminate.
Defined.

(** X16: an accepted registration shows up in the attendee list of its
    event, not yet checked in, and in the list of no other event; the
    attendees listed before are still listed, and nobody else is.  The
    lists are those of an event id that fits a signed 64-bit integer. *)
Theorem register_attendee_then_list d k f l e p d' j a k' :
  get_db (register_attendee k f l e p) d = (d', Ok (j, a)) →
  int64 k' = true →
  ∃ before after,
    get_db (list_attendees k') d = (d, Ok before)
    ∧ get_db (list_attendees k') d' = (d', Ok after)
    ∧ check_in_status a = false
    ∧ ∀ r, r ∈ after ↔ r ∈ before ∨ (r = (j, a) ∧ k' = k).
Proof.
  intros Hreg Hfit.
  destruct (list_attendees_rows k' d (bindable_int64 _ _ Hfit))
    as (before & Hb & _ & Hinb).
  destruct (list_attendees_rows k' d' (bindable_int64 _ _ Hfit))
    as (after & Ha & _ & Hina).
  exists before, after. rewrite get_db_register_attendee in Hreg.
  destruct (events d !! k); [|by destruct (int64 k)].
  case_bool_decide; [done|].
  destruct (email_taken e (attendees d)); [done|].
  injection Hreg as <- <- <-. split_and!; try done.
  intros [j0 a0]. rewrite Hina, Hinb. cbn.
  rewrite lookup_insert. case_decide as Hj.
  - subst j0. split.
    + intros [[= <-] Hk]. cbn in Hk. by right.
    + intros [[Hj0 _] | [[= ->] ->]]; [|by split].
      by rewrite next_key_fresh in Hj0.
  - split; [intros [? ?]; by left|].
    intros [[? ?] | [[= ? ?] _]]; [done | congruence].
Qed.

Lemma register_attendee_then_list_witness :
  ∃ before after,
    get_db (list_attendees 1) db_two_seats = (db_two_seats, Ok before)
    ∧ get_db (list_attendees 1) db_one_taken = (db_one_taken, Ok after)
    ∧ check_in_status (Attendee_init 1 "Ann" "Lee" "ann@x.org" "555") = false
    ∧ ∀ r, r ∈ after
           ↔ r ∈ before
             ∨ (r = (1, Attendee_init 1 "Ann" "Lee" "ann@x.org" "555")
                ∧ (1 : Z) = 1).
Proof.
  apply (register_attendee_then_list db_two_seats 1
           "Ann" "Lee" "ann@x.org" "555" db_one_taken 1
           (Attendee_init 1 "Ann" "Lee" "ann@x.org" "555") 1).
  - vm_compute. reflexivity.
  - vm_compute. reflexivity.
Defined.

(** X17: after a status update the event is listed under the new status and
    under no other status. *)
Theorem update_event_then_list d k ev st st' rows :
  events d !! k = Some ev →
  (get_db (list_events (Some st') None None)
     (get_db (update_event k st) d).1).2 = Ok rows →
  (∃ ev', (k, ev') ∈ rows) ↔ st' = st.
Proof.
  intros Hk Hrows. rewrite get_db_update_event, Hk in Hrows.
  cbn [fst] in Hrows. split.
  - intros (ev' & Hin).
    apply (list_events_elem _ _ _ _ _ _ _ Hrows) in Hin as [Hev' (Hs & _)].
    cbn in Hev'. rewrite lookup_alter_eq, Hk in Hev'.
    injection Hev' as <-. symmetry. by apply Hs.
  - intros ->. exists (set_status st ev).
    apply (list_events_elem _ _ _ _ _ _ _ Hrows). cbn.
    rewrite lookup_alter_eq, Hk. split; [done|].
    split_and!; [by intros ? [= <-] | done | done].
Qed.

Lemma update_event_then_list_witness :
  (∃ ev', (1, ev') ∈ [(1, set_status ongoing
                            (Event_init "Launch" "" 10 20 "Hall" 2))])
  ↔ ongoing = ongoing.
Proof.
  apply (update_event_then_list db_two_seats 1
           (Event_init "Launch" "" 10 20 "Hall" 2) ongoing ongoing).
  - vm_compute. reflexivity.
  - vm_compute. reflexivity.
Defined.

(** X18: under a date filter an event is listed only if it starts on or
    after the date and ends within 24 hours of it; so an event that lasts
    longer than 24 hours is listed for no date at all. *)
Theorem list_events_date_window d st loc t rows k ev :
  (get_db (list_events st loc (Some t)) d).2 = Ok rows →
  86400000000 < end_time ev - start_time ev →
  (k, ev) ∉ rows.
Proof.
  intros Hrows Hlong Hin.
  apply (list_events_elem _ _ _ _ _ _ _ Hrows) in Hin as [_ (_ & _ & Ht)].
  destruct (Ht t eq_refl). lia.
Qed.

Lemma list_events_date_window_witness :
  (1, Build_Event "Camp" "" 0 86400000001 "Field" 5 scheduled)
  ∉ ([] : list (row Event)).
Proof.
  apply (list_events_date_window
           {| events := {[1 := Build_Event "Camp" "" 0 86400000001 "Field" 5
                                  scheduled]};
              attendees := ∅ |} None None 0).
  - vm_compute. reflexivity.
  - vm_compute. reflexivity.
Defined.

(** X19: after a successful check-in the attendee is listed among the
    attendees of its event with [check_in_status] true and its other
    columns as they were, and the check-in adds nobody to that list.  The
    list is that of an event id that fits a signed 64-bit integer. *)
Theorem check_in_attendee_then_list d k a :
  attendees d !! k = Some a →
  int64 (event_id a) = true →
  ∃ rows,
    get_db (list_attendees (event_id a)) (get_db (check_in_attendee k) d).1
    = ((get_db (check_in_attendee k) d).1, Ok rows)
    ∧ (k, Build_Attendee (first_name a) (last_name a) (email a)
            (phone_number a) (event_id a) true) ∈ rows
    ∧ length rows = attendee_count (event_id a) d.
Proof.
  intros Hk Hfit. rewrite check_in_attendee_db.
  set (d' := {| events := events d; attendees := _ |}).
  destruct (list_attendees_rows (event_id a) d' (bindable_int64 _ _ Hfit))
    as (rows & Heq & _ & Hin).
  exists rows. split_and!; [done | |].
  - apply Hin. cbn. by rewrite lookup_alter_eq, Hk.
  - rewrite get_db_list_attendees, (bindable_int64 _ _ Hfit) in Heq.
    injection Heq as <-.
    apply (attendee_count_check_in (event_id a) k true d (events d)).
Qed.

Lemma check_in_attendee_then_list_witness :
  ∃ rows,
    get_db (list_attendees 1) (get_db (check_in_attendee 1) db_one_taken).1
    = ((get_db (check_in_attendee 1) db_one_taken).1, Ok rows)
    ∧ (1, Build_Attendee "Ann" "Lee" "ann@x.org" "555" 1 true) ∈ rows
    ∧ length rows = attendee_count 1 db_one_taken.
Proof.
  apply (check_in_attendee_then_list db_one_taken 1
           (Attendee_init 1 "Ann" "Lee" "ann@x.org" "555")).
  - vm_compute. reflexivity.
  - vm_compute. reflexivity.
Defined.
